(** * The signaling server of pionclient2 (class [WebRTCSignalingServer])

    A shallow embedding of the server half of [src/src/WatchApp.tsx]:
    the client registry (a JS [Map]), the message dispatcher, the
    server-mediated offer/answer handler, the peer-to-peer relay, the
    HLS transcoding starters and the disconnect handler.

    Conventions of the embedding.
    - Every JS object the server allocates or receives (a socket, a peer
      connection, a write stream, a child process) is a handle: a [nat]
      taken from the counter [next] of the world.
    - Calls whose effect lies outside the program ([ws.send],
      [console.log], [spawn], [stream.end], [process.kill], ...) are
      appended, in program order, to the [trace] of the world; they
      return normally ([send] on a server-side socket that is no longer
      open drops the message).
    - The argument of [JSON.stringify] is recorded in place of its text.
    - A JS exception is a [Throw] completion of the monad [M]. *)

From Stdlib Require Import String List Bool Arith ZArith Lia.
Import ListNotations.
Open Scope string_scope.
Open Scope list_scope.

(** ** JS values as produced by [JSON.parse] *)

(** Numbers are only ever tested for truthiness by the server; they are
    kept as naturals. [JUndef] is the value of a missing property.
    [JObj] lists the own properties of an object in enumeration order. *)
#[warnings="-register-all"]
Inductive JSON : Type :=
| JUndef
| JNull
| JBool (b : bool)
| JNum (n : nat)
| JStr (s : string)
| JArr (items : list JSON)
| JObj (members : list (string * JSON)).

Inductive Exn : Type :=
| SyntaxError                    (* JSON.parse on malformed text *)
| TypeError (prop : string)      (* property read on null/undefined *)
| LibError (what : string).      (* a rejected promise of the WebRTC library *)

(** ** Insertion-ordered maps with string keys

    Used for the [clients] Map, for the own properties of a JS object and
    for [client.mediaStreams]. [map_set] on a key that is present keeps
    the position of the entry, as [Map.prototype.set] and a property
    assignment do; on a fresh key the entry goes last. *)
Section OrderedMap.
Context {V : Type}.

Fixpoint map_get (k : string) (m : list (string * V)) : option V :=
  match m with
  | [] => None
  | (k', v) :: rest => if String.eqb k k' then Some v else map_get k rest
  end.

Fixpoint map_set (k : string) (v : V) (m : list (string * V)) : list (string * V) :=
  match m with
  | [] => [(k, v)]
  | (k', v') :: rest =>
      if String.eqb k k' then (k', v) :: rest else (k', v') :: map_set k v rest
  end.

Definition map_delete (k : string) (m : list (string * V)) : list (string * V) :=
  filter (fun kv => negb (String.eqb k (fst kv))) m.

Definition map_keys (m : list (string * V)) : list string := map fst m.
Definition map_values (m : list (string * V)) : list V := map snd m.

End OrderedMap.

(** ** Truthiness and property reads *)

Definition truthy (v : JSON) : bool :=
  match v with
  | JUndef | JNull => false
  | JBool b => b
  | JNum n => negb (Nat.eqb n 0)
  | JStr s => negb (String.eqb s "")
  | JArr _ | JObj _ => true
  end.

(** [v.k] for the property names the server reads ([type], [payload],
    [sdp], [candidate], [toPeerID]): none of them is an index, [length]
    or a prototype member, so only an object can hold one. *)
Definition get_prop (v : JSON) (k : string) : Exn + JSON :=
  match v with
  | JUndef | JNull => inl (TypeError k)
  | JObj members =>
      match map_get k members with
      | Some x => inr x
      | None => inr JUndef
      end
  | _ => inr JUndef
  end.

(** The object spread [{...o, k: v}] for an object [o]. *)
Definition spread_set (o : list (string * JSON)) (k : string) (v : JSON) : JSON :=
  JObj (map_set k v o).

(** ** The data model *)

Inductive ReadyState : Type := CONNECTING | OPEN | CLOSING | CLOSED.

Definition is_open (r : ReadyState) : bool :=
  match r with OPEN => true | _ => false end.

Record WebSocket : Type := mkWebSocket {
  handle : nat;
  readyState : ReadyState
}.

Record ClientConnection : Type := mkClient {
  id : string;
  ws : WebSocket;
  peerConnection : option nat;
  mediaStreams : list (string * nat);
  ffmpegProcess : option nat
}.

Definition with_ws (s : WebSocket) (c : ClientConnection) : ClientConnection :=
  mkClient (id c) s (peerConnection c) (mediaStreams c) (ffmpegProcess c).
Definition with_peerConnection (pc : nat) (c : ClientConnection) : ClientConnection :=
  mkClient (id c) (ws c) (Some pc) (mediaStreams c) (ffmpegProcess c).
Definition with_mediaStream (kind : string) (s : nat) (c : ClientConnection) : ClientConnection :=
  mkClient (id c) (ws c) (peerConnection c) (map_set kind s (mediaStreams c)) (ffmpegProcess c).
Definition with_ffmpegProcess (p : nat) (c : ClientConnection) : ClientConnection :=
  mkClient (id c) (ws c) (peerConnection c) (mediaStreams c) (Some p).

(** The part of an [RTCPeerConnection] the handlers drive. *)
Record PeerConnection : Type := mkPC {
  remoteDescription : option JSON;
  localDescription : option (option string);   (* the answer and its [sdp] *)
  remoteCandidates : list JSON;
  pc_closed : bool
}.

Inductive Event : Type :=
| EvWsSend (socket : nat) (message : JSON)
| EvWsClose (socket : nat) (code : nat) (reason : string)
| EvLog (text : string)
| EvError (text : string) (e : Exn)
| EvMkdir (path : string)
| EvCreateWriteStream (stream : nat) (path : string)
| EvSetTimeout (clientId : string) (ms : nat)
| EvSpawn (process : nat) (command : string) (args : list string)
| EvStreamEnd (stream : nat)
| EvKill (process : nat) (signal : string).

Record World : Type := mkWorld {
  clients : list (string * ClientConnection);
  pcs : list (nat * PeerConnection);
  next : nat;
  trace : list Event
}.

Definition initial : World := mkWorld [] [] 0 [].

(** ** The monad of handlers: state plus JS exceptions *)

Inductive Completion (A : Type) : Type :=
| Normal (a : A)
| Throw (e : Exn).
Arguments Normal {A} a.
Arguments Throw {A} e.

Definition M (A : Type) : Type := World -> Completion A * World.

Definition ret {A} (a : A) : M A := fun w => (Normal a, w).
Definition throw {A} (e : Exn) : M A := fun w => (Throw e, w).
Definition bind {A B} (m : M A) (f : A -> M B) : M B :=
  fun w => match m w with
           | (Normal a, w') => f a w'
           | (Throw e, w') => (Throw e, w')
           end.
Definition try_catch {A} (m : M A) (h : Exn -> M A) : M A :=
  fun w => match m w with
           | (Normal a, w') => (Normal a, w')
           | (Throw e, w') => h e w'
           end.

Declare Scope js_scope.
Delimit Scope js_scope with js.
Notation "x <- m ;; k" := (bind m (fun x => k))
  (at level 61, m at next level, right associativity) : js_scope.
Notation "m ;; k" := (bind m (fun _ => k))
  (at level 61, right associativity) : js_scope.
Open Scope js_scope.

Definition lift {A} (r : Exn + A) : M A :=
  match r with inl e => throw e | inr a => ret a end.

Definition emit (e : Event) : M unit :=
  fun w => (Normal tt, mkWorld (clients w) (pcs w) (next w) (trace w ++ [e])).
Definition fresh : M nat :=
  fun w => (Normal (next w), mkWorld (clients w) (pcs w) (S (next w)) (trace w)).
Definition get_clients : M (list (string * ClientConnection)) :=
  fun w => (Normal (clients w), w).
Definition put_clients (m : list (string * ClientConnection)) : M unit :=
  fun w => (Normal tt, mkWorld m (pcs w) (next w) (trace w)).
Definition get_pcs : M (list (nat * PeerConnection)) :=
  fun w => (Normal (pcs w), w).
Definition put_pcs (m : list (nat * PeerConnection)) : M unit :=
  fun w => (Normal tt, mkWorld (clients w) m (next w) (trace w)).

Fixpoint for_each {A} (f : A -> M unit) (l : list A) : M unit :=
  match l with
  | [] => ret tt
  | a :: rest => f a ;; for_each f rest
  end.

Definition exec {A} (m : M A) (w : World) : World := snd (m w).
Definition completion {A} (m : M A) (w : World) : Completion A := fst (m w).

(** ** Registry and peer-connection primitives *)

(** [client.f = v] on the object that [this.clients.get(clientId)] has
    just returned: the entry under [clientId] is rewritten in place. *)
Definition modify_client (clientId : string)
    (f : ClientConnection -> ClientConnection) : M unit :=
  m <- get_clients ;;
  match map_get clientId m with
  | Some client => put_clients (map_set clientId (f client) m)
  | None => ret tt
  end.

Fixpoint pcs_get (pc : nat) (l : list (nat * PeerConnection)) : option PeerConnection :=
  match l with
  | [] => None
  | (q, s) :: rest => if Nat.eqb pc q then Some s else pcs_get pc rest
  end.

Definition pcs_update (pc : nat) (f : PeerConnection -> PeerConnection)
    (l : list (nat * PeerConnection)) : list (nat * PeerConnection) :=
  map (fun qs => if Nat.eqb pc (fst qs) then (fst qs, f (snd qs)) else qs) l.

Definition modify_pc (pc : nat) (f : PeerConnection -> PeerConnection) : M unit :=
  l <- get_pcs ;; put_pcs (pcs_update pc f l).

(** [new RTCPeerConnection({ iceServers: [...] })] *)
Definition newPeerConnection : M nat :=
  pc <- fresh ;;
  l <- get_pcs ;;
  put_pcs (l ++ [(pc, mkPC None None [] false)]) ;;
  ret pc.

(** What the WebRTC library answers to the three awaited calls of one
    [handleServerOffer]: [None] / [inr] is a resolved promise, [Some e] /
    [inl e] a rejected one. [local_result] carries the value that
    [pc.localDescription?.sdp] has once [setLocalDescription] resolved. *)
Record Negotiation : Type := mkNegotiation {
  remote_result : option Exn;
  answer_result : option Exn;
  local_result : Exn + option string
}.

Definition setRemoteDescription (o : Negotiation) (pc : nat) (sdp : JSON) : M unit :=
  match remote_result o with
  | Some e => throw e
  | None => modify_pc pc (fun s => mkPC (Some sdp) (localDescription s) (remoteCandidates s) (pc_closed s))
  end.

Definition createAnswer (o : Negotiation) : M unit :=
  match answer_result o with
  | Some e => throw e
  | None => ret tt
  end.

Definition setLocalDescription (o : Negotiation) (pc : nat) : M unit :=
  match local_result o with
  | inl e => throw e
  | inr sdp => modify_pc pc (fun s => mkPC (remoteDescription s) (Some sdp) (remoteCandidates s) (pc_closed s))
  end.

(** [pc.localDescription?.sdp] *)
Definition localDescription_sdp (pc : nat) : M (option string) :=
  l <- get_pcs ;;
  ret (match pcs_get pc l with
       | Some s => match localDescription s with Some sdp => sdp | None => None end
       | None => None
       end).

Definition pc_close (pc : nat) : M unit :=
  modify_pc pc (fun s => mkPC (remoteDescription s) (localDescription s) (remoteCandidates s) true).

(** ** The connection handler (lines 191-207)

    [clientId] is the result of [url.searchParams.get("clientId")];
    [socket] is the [ws] object the library hands over. *)
Definition absent_id (clientId : option string) : bool :=
  match clientId with
  | None => true
  | Some s => String.eqb s ""
  end.

Definition new_client (clientId : string) (socket : WebSocket) : ClientConnection :=
  mkClient clientId socket None [] None.

Definition onConnection (socket : WebSocket) (clientId : option string) : M unit :=
  match clientId with
  | None => emit (EvWsClose (handle socket) 1008 "Client ID required")
  | Some cid =>
      if absent_id clientId
      then emit (EvWsClose (handle socket) 1008 "Client ID required")
      else
        m <- get_clients ;;
        put_clients (map_set cid (new_client cid socket) m) ;;
        emit (EvLog ("Client " ++ cid ++ " connected"))
  end.

(** ** Peer discovery broadcast (lines 264-281) *)
Definition discovery_message (fromClientId : string) : JSON :=
  JObj [("type", JStr "signal-initiate-p2p");
        ("payload", JObj [("fromPeerID", JStr fromClientId)])].

Definition notify_discovery (fromClientId : string)
    (entry : string * ClientConnection) : M unit :=
  let (clientId, client) := entry in
  if negb (String.eqb clientId fromClientId) && is_open (readyState (ws client))
  then emit (EvWsSend (handle (ws client)) (discovery_message fromClientId))
  else ret tt.

Definition handleInitiateP2P (fromClientId : string) : M unit :=
  m <- get_clients ;;
  for_each (notify_discovery fromClientId) m.

(** ** Server-mediated offer (lines 283-332)

    The handler is run to completion in one piece: what follows each
    [await] reads only the [client] and [pc] captured before it. *)
Definition answer_message (sdp : option string) : JSON :=
  JObj [("type", JStr "server-answer");
        ("payload", JObj [("sdp", match sdp with Some s => JStr s | None => JUndef end)])].

Definition offer_error_text (clientId : string) : string :=
  "Error handling server offer from " ++ clientId ++ ":".

Definition handleServerOffer (o : Negotiation) (clientId : string) (message : JSON) : M unit :=
  m <- get_clients ;;
  match map_get clientId m with
  | None => ret tt
  | Some client =>
      payload <- lift (get_prop message "payload") ;;
      sdp <- lift (get_prop payload "sdp") ;;
      if negb (truthy sdp) then ret tt
      else
        try_catch
          (pc <- newPeerConnection ;;
           modify_client clientId (with_peerConnection pc) ;;
           inner <- lift (get_prop sdp "sdp") ;;
           setRemoteDescription o pc inner ;;
           createAnswer o ;;
           setLocalDescription o pc ;;
           local <- localDescription_sdp pc ;;
           emit (EvWsSend (handle (ws client)) (answer_message local)))
          (fun e => emit (EvError (offer_error_text clientId) e))
  end.

(** The two callbacks installed on the peer connection of an offer
    (lines 296-313): a local candidate is sent on the socket of the
    client the offer came from, if that socket is open; a track is
    logged and handed to [handleIncomingTrack] (see [handler]). *)
Definition candidate_notification (candidate : JSON) : JSON :=
  JObj [("type", JStr "server-candidate");
        ("payload", JObj [("candidate", candidate)])].

Definition onIceCandidate (socket : WebSocket) (candidate : JSON) : M unit :=
  if truthy candidate && is_open (readyState socket)
  then emit (EvWsSend (handle socket) (candidate_notification candidate))
  else ret tt.

Definition track_text (kind clientId : string) : string :=
  "Received " ++ kind ++ " track from client " ++ clientId.

(** ** Server-mediated candidate (lines 334-348) *)
Definition addIceCandidate (ice : option Exn) (pc : nat) (candidate : JSON) : M unit :=
  match ice with
  | Some e => throw e
  | None =>
      modify_pc pc (fun s => mkPC (remoteDescription s) (localDescription s)
                                  (remoteCandidates s ++ [candidate]) (pc_closed s))
  end.

Definition handleServerCandidate (ice : option Exn) (clientId : string)
    (message : JSON) : M unit :=
  m <- get_clients ;;
  match map_get clientId m with
  | None => ret tt
  | Some client =>
      match peerConnection client with
      | None => ret tt
      | Some pc =>
          payload <- lift (get_prop message "payload") ;;
          candidate <- lift (get_prop payload "candidate") ;;
          if negb (truthy candidate) then ret tt
          else
            try_catch
              (inner <- lift (get_prop candidate "candidate") ;;
               addIceCandidate ice pc inner)
              (fun e => emit (EvError ("Error adding ICE candidate for " ++ clientId ++ ":") e))
      end
  end.

(** ** Peer-to-peer relay (lines 350-366) *)

(** The own properties that [{...v}] copies. The relay spreads [message]
    and [message.payload] only after [message.payload.toPeerID] was read
    and found truthy, which makes both of them objects. *)
Definition own_props (v : JSON) : list (string * JSON) :=
  match v with
  | JObj members => members
  | _ => []
  end.

Definition relay_message (fromClientId : string) (message : JSON) : JSON :=
  let payload := match get_prop message "payload" with
                 | inr p => p
                 | inl _ => JUndef
                 end in
  spread_set (own_props message) "payload"
    (spread_set (own_props payload) "fromPeerID" (JStr fromClientId)).

(** [this.clients.get(k)] for an arbitrary JS value [k]: the keys of the
    Map are strings, and [Map] compares keys without coercion. *)
Definition clients_get (k : JSON) (m : list (string * ClientConnection)) :
    option ClientConnection :=
  match k with
  | JStr s => map_get s m
  | _ => None
  end.

Definition relayP2PMessage (fromClientId : string) (message : JSON) : M unit :=
  payload <- lift (get_prop message "payload") ;;
  targetClientId <- lift (get_prop payload "toPeerID") ;;
  if negb (truthy targetClientId) then ret tt
  else
    m <- get_clients ;;
    match clients_get targetClientId m with
    | Some targetClient =>
        if is_open (readyState (ws targetClient))
        then emit (EvWsSend (handle (ws targetClient)) (relay_message fromClientId message))
        else ret tt
    | None => ret tt
    end.

(** ** The dispatcher (lines 239-262) and the message listener (209-216) *)
Record External : Type := mkExternal {
  negotiation : Negotiation;
  ice_result : option Exn
}.

Definition handleSignalingMessage (ext : External) (clientId : string)
    (message : JSON) : M unit :=
  m <- get_clients ;;
  match map_get clientId m with
  | None => ret tt
  | Some _ =>
      ty <- lift (get_prop message "type") ;;
      match ty with
      | JStr t =>
          if String.eqb t "signal-initiate-p2p" then handleInitiateP2P clientId
          else if String.eqb t "server-offer"
               then handleServerOffer (negotiation ext) clientId message
          else if String.eqb t "server-candidate"
               then handleServerCandidate (ice_result ext) clientId message
          else if String.eqb t "direct-offer" || String.eqb t "direct-answer"
                  || String.eqb t "direct-candidate"
               then relayP2PMessage clientId message
          else ret tt
      | _ => ret tt
      end
  end.

(** [data] is [Some v] when [JSON.parse(data.toString())] yields [v]. *)
Definition onMessage (ext : External) (clientId : string) (data : option JSON) : M unit :=
  try_catch
    (message <- match data with Some v => ret v | None => throw SyntaxError end ;;
     handleSignalingMessage ext clientId message)
    (fun e => emit (EvError "Error handling message:" e)).

(** ** Disconnect (lines 594-631) *)
Definition peer_disconnected_message (clientId : string) : JSON :=
  JObj [("type", JStr "peer-disconnected");
        ("payload", JObj [("clientId", JStr clientId)])].

Definition disconnect_text (clientId : string) : string :=
  "Client " ++ clientId ++ " disconnected".

Definition notify_disconnected (clientId : string)
    (entry : string * ClientConnection) : M unit :=
  let otherClient := snd entry in
  if is_open (readyState (ws otherClient))
  then emit (EvWsSend (handle (ws otherClient)) (peer_disconnected_message clientId))
  else ret tt.

Definition handleClientDisconnect (clientId : string) : M unit :=
  m <- get_clients ;;
  match map_get clientId m with
  | None => ret tt
  | Some client =>
      emit (EvLog (disconnect_text clientId)) ;;
      match peerConnection client with
      | Some pc => pc_close pc
      | None => ret tt
      end ;;
      for_each (fun stream => emit (EvStreamEnd stream))
               (map_values (mediaStreams client)) ;;
      match ffmpegProcess client with
      | Some p => emit (EvKill p "SIGTERM")
      | None => ret tt
      end ;;
      m' <- get_clients ;;
      put_clients (map_delete clientId m') ;;
      m'' <- get_clients ;;
      for_each (notify_disconnected clientId) m''
  end.

(** ** Media ingest and the transcoding starters

    [path.join] belongs to the platform ([posix] or [win32]); the server
    only passes its results on to [createWriteStream] and to [ffmpeg], so
    it stays a parameter. *)
Section Media.
Variable path_join : list string -> string.

Definition outputDir : string := "./output".
Definition hlsDir : string := "./hls".

Definition createWriteStream (path : string) : M nat :=
  s <- fresh ;;
  emit (EvCreateWriteStream s path) ;;
  ret s.

Definition spawn (command : string) (args : list string) : M nat :=
  p <- fresh ;;
  emit (EvSpawn p command args) ;;
  ret p.

Definition has_session (c : ClientConnection) : bool :=
  match peerConnection c with Some _ => true | None => false end.

(** Lines 473-524. *)
Definition single_args (videoPath audioPath hlsPath : string) : list string :=
  ["-re"; "-i"; videoPath; "-i"; audioPath;
   "-c:v"; "libx264"; "-preset"; "ultrafast"; "-tune"; "zerolatency";
   "-c:a"; "aac"; "-b:a"; "128k";
   "-f"; "hls"; "-hls_time"; "2"; "-hls_list_size"; "10";
   "-hls_flags"; "delete_segments"; "-hls_allow_cache"; "0";
   hlsPath].

Definition createSingleClientHLSStream (clientId videoPath audioPath hlsPath : string) : M unit :=
  m <- get_clients ;;
  match map_get clientId m with
  | None => ret tt
  | Some _ =>
      p <- spawn "ffmpeg" (single_args videoPath audioPath hlsPath) ;;
      modify_client clientId (with_ffmpegProcess p) ;;
      emit (EvLog ("Started HLS processing for client " ++ clientId))
  end.

(** Lines 526-592. *)
Definition composite_args (video1Path video2Path audio1Path compositeHlsPath : string) :
    list string :=
  ["-re"; "-i"; video1Path; "-i"; video2Path; "-i"; audio1Path;
   "-filter_complex"; "[0:v][1:v]hstack=inputs=2[v]";
   "-map"; "[v]"; "-map"; "2:a";
   "-c:v"; "libx264"; "-preset"; "ultrafast"; "-tune"; "zerolatency";
   "-c:a"; "aac"; "-b:a"; "128k";
   "-f"; "hls"; "-hls_time"; "2"; "-hls_list_size"; "10";
   "-hls_flags"; "delete_segments"; "-hls_allow_cache"; "0";
   compositeHlsPath].

Definition active_entries (m : list (string * ClientConnection)) :
    list (string * ClientConnection) :=
  filter (fun kc => has_session (snd kc)) m.

Definition createCompositeHLSStream : M unit :=
  m <- get_clients ;;
  match active_entries m with
  | (id1, _) :: (id2, _) :: _ =>
      let video1Path := path_join [outputDir; id1; "video.h264"] in
      let video2Path := path_join [outputDir; id2; "video.h264"] in
      let audio1Path := path_join [outputDir; id1; "audio.ogg"] in
      let compositeHlsPath := path_join [hlsDir; "playlist.m3u8"] in
      _ <- spawn "ffmpeg"
             (composite_args video1Path video2Path audio1Path compositeHlsPath) ;;
      emit (EvLog "Started composite HLS stream processing")
  | _ => ret tt
  end.

(** Lines 452-471. *)
Definition startHLSProcessing (clientId : string) : M unit :=
  m <- get_clients ;;
  match map_get clientId m with
  | None => ret tt
  | Some client =>
      match ffmpegProcess client with
      | Some _ => ret tt
      | None =>
          let inputDir := path_join [outputDir; clientId] in
          let videoPath := path_join [inputDir; "video.h264"] in
          let audioPath := path_join [inputDir; "audio.ogg"] in
          let hlsPath := path_join [hlsDir; "playlist.m3u8"] in
          let activeClients := filter has_session (map_values m) in
          if Nat.leb 2 (List.length activeClients)
          then createCompositeHLSStream
          else createSingleClientHLSStream clientId videoPath audioPath hlsPath
      end
  end.

(** Lines 384-427; the RTP callback installed on the track only writes to
    the two streams and is left out. *)
Definition setupVideoProcessing (clientId : string) : M unit :=
  m <- get_clients ;;
  match map_get clientId m with
  | None => ret tt
  | Some _ =>
      let videoPath := path_join [outputDir; clientId; "video.h264"] in
      let ivfPath := path_join [outputDir; clientId; "video.ivf"] in
      h264Stream <- createWriteStream videoPath ;;
      _ <- createWriteStream ivfPath ;;
      modify_client clientId (with_mediaStream "video" h264Stream) ;;
      emit (EvSetTimeout clientId 2000)
  end.

(** Lines 429-450. *)
Definition setupAudioProcessing (clientId : string) : M unit :=
  m <- get_clients ;;
  match map_get clientId m with
  | None => ret tt
  | Some _ =>
      let audioPath := path_join [outputDir; clientId; "audio.ogg"] in
      audioStream <- createWriteStream audioPath ;;
      modify_client clientId (with_mediaStream "audio" audioStream)
  end.

(** Lines 368-382; [dirExists] is the answer of [existsSync(outputPath)]. *)
Definition handleIncomingTrack (clientId kind : string) (dirExists : bool) : M unit :=
  m <- get_clients ;;
  match map_get clientId m with
  | None => ret tt
  | Some _ =>
      let outputPath := path_join [outputDir; clientId] in
      (if dirExists then ret tt else emit (EvMkdir outputPath)) ;;
      if String.eqb kind "video" then setupVideoProcessing clientId
      else if String.eqb kind "audio" then setupAudioProcessing clientId
      else ret tt
  end.

(** ** The server as a transition system

    One [Input] is one callback the runtime invokes on the server, run
    from its start to its end: a callback that is suspended at an
    [await] is not interleaved with others.  [Track] is [pc.ontrack] of
    a peer connection offered by [clientId]; [LocalCandidate] is
    [pc.onicecandidate], with the socket of the client the offer came
    from in the state it has by then and the candidate as its [toJSON]
    gives it ([JNull] at the end of gathering). *)
Inductive Input : Type :=
| Connection (state : ReadyState) (clientId : option string)
| Message (clientId : string) (data : option JSON) (ext : External)
| Close (clientId : string)
| SocketError (clientId : string) (e : Exn)
| Track (clientId kind : string) (dirExists : bool)
| Timer (clientId : string)
| SocketState (clientId : string) (state : ReadyState)
| LocalCandidate (socket : WebSocket) (candidate : JSON).

Definition handler (i : Input) : M unit :=
  match i with
  | Connection state clientId =>
      h <- fresh ;; onConnection (mkWebSocket h state) clientId
  | Message clientId data ext => onMessage ext clientId data
  | Close clientId => handleClientDisconnect clientId
  | SocketError clientId e =>
      emit (EvError ("WebSocket error for client " ++ clientId ++ ":") e) ;;
      handleClientDisconnect clientId
  | Track clientId kind dirExists =>
      emit (EvLog (track_text kind clientId)) ;;
      handleIncomingTrack clientId kind dirExists
  | Timer clientId => startHLSProcessing clientId
  | SocketState clientId state =>
      modify_client clientId (fun c => with_ws (mkWebSocket (handle (ws c)) state) c)
  | LocalCandidate socket candidate => onIceCandidate socket candidate
  end.

Definition step (i : Input) (w : World) : World := exec (handler i) w.

Definition run (inputs : list Input) (w : World) : World :=
  fold_left (fun w i => step i w) inputs w.

End Media.

(** ** Observations on worlds and traces *)

Definition append_trace (es : list Event) (w : World) : World :=
  mkWorld (clients w) (pcs w) (next w) (trace w ++ es).

(** The events a handler appended when it took [w] to [w']. *)
Definition added_since (w w' : World) : list Event :=
  skipn (List.length (trace w)) (trace w').

(** The messages handed to [send] of the socket [h], in order. *)
Fixpoint sends_to (h : nat) (t : list Event) : list JSON :=
  match t with
  | [] => []
  | EvWsSend h' message :: rest =>
      if Nat.eqb h h' then message :: sends_to h rest else sends_to h rest
  | _ :: rest => sends_to h rest
  end.

(** The child processes started / signalled, and the streams ended. *)
Fixpoint spawned (t : list Event) : list nat :=
  match t with
  | [] => []
  | EvSpawn p _ _ :: rest => p :: spawned rest
  | _ :: rest => spawned rest
  end.

Fixpoint killed (t : list Event) : list nat :=
  match t with
  | [] => []
  | EvKill p _ :: rest => p :: killed rest
  | _ :: rest => killed rest
  end.

Fixpoint ended (t : list Event) : list nat :=
  match t with
  | [] => []
  | EvStreamEnd s :: rest => s :: ended rest
  | _ :: rest => ended rest
  end.

Fixpoint errors_logged (t : list Event) : list Exn :=
  match t with
  | [] => []
  | EvError _ e :: rest => e :: errors_logged rest
  | _ :: rest => errors_logged rest
  end.

(** The negotiation states of section 4.3 of the specification, read off
    the peer connection a client holds. *)
Inductive SessionState : Type :=
| Idle | OfferReceived | AnswerSent | CandidatesExchanging | Closed.

Definition pc_state (s : PeerConnection) : SessionState :=
  if pc_closed s then Closed
  else match localDescription s with
       | None => OfferReceived
       | Some _ =>
           match remoteCandidates s with
           | [] => AnswerSent
           | _ :: _ => CandidatesExchanging
           end
       end.

Definition session_state (w : World) (c : ClientConnection) : SessionState :=
  match peerConnection c with
  | None => Idle
  | Some pc =>
      match pcs_get pc (pcs w) with
      | Some s => pc_state s
      | None => Idle
      end
  end.

(** ** The representation invariant

    Keys of the Map are distinct, non-empty and equal to the [id] of their
    entry; every connection has a socket of its own; the socket and the
    subprocess stored on a client, and the keys of the store of peer
    connections, have been allocated.  Nothing is required here of the
    [peerConnection] field of a client; that it points into the store in
    every reachable world is shown on its own. *)
Definition socket_of (kc : string * ClientConnection) : nat := handle (ws (snd kc)).

Definition client_ok (n : nat) (kc : string * ClientConnection) : Prop :=
  fst kc <> "" /\
  id (snd kc) = fst kc /\
  socket_of kc < n /\
  (forall p, ffmpegProcess (snd kc) = Some p -> p < n).

Record wf (w : World) : Prop := mk_wf {
  wf_keys : NoDup (map_keys (clients w));
  wf_sockets : NoDup (map socket_of (clients w));
  wf_clients : Forall (client_ok (next w)) (clients w);
  wf_pcs : Forall (fun qs => fst qs < next w) (pcs w)
}.

(** How one callback may change the registry when it starts with the
    counter at [n] and leaves it at [n']: not at all, by a field
    assignment on one client (a subprocess it stores is the object
    allocated at [n]), by a [set] of a new client on a socket allocated at
    [n], or by a [delete]. *)
Inductive registry_step (n n' : nat) (m : list (string * ClientConnection)) :
    list (string * ClientConnection) -> Prop :=
| RSame : registry_step n n' m m
| RModify k c c' :
    map_get k m = Some c ->
    id c' = id c ->
    handle (ws c') = handle (ws c) ->
    ffmpegProcess c' = ffmpegProcess c \/ (ffmpegProcess c' = Some n /\ n < n') ->
    registry_step n n' m (map_set k c' m)
| RInsert k state :
    k <> "" -> n < n' ->
    registry_step n n' m (map_set k (new_client k (mkWebSocket n state)) m)
| RDelete k : registry_step n n' m (map_delete k m).

Definition stored_process (m : list (string * ClientConnection)) (p : nat) : Prop :=
  exists kc, In kc m /\ ffmpegProcess (snd kc) = Some p.

(** What one callback does to the world. *)
Record effect (w w' : World) : Prop := mk_effect {
  eff_next : next w <= next w';
  eff_registry : registry_step (next w) (next w') (clients w) (clients w');
  eff_pcs : forall q, In q (map fst (pcs w')) ->
              In q (map fst (pcs w)) \/ (q = next w /\ next w < next w');
  eff_trace : exists added,
      trace w' = trace w ++ added /\
      forall p, In p (killed added) -> stored_process (clients w) p
}.

Definition reachable (path_join : list string -> string) (w : World) : Prop :=
  exists inputs, w = run path_join inputs initial.

(** What a broadcast loop over the registry sends: [message] to the socket
    of every entry that [cond] selects. *)
Definition notify (cond : string * ClientConnection -> bool) (message : JSON)
    (kc : string * ClientConnection) : list Event :=
  if cond kc then [EvWsSend (socket_of kc) message] else [].

Definition notifications (cond : string * ClientConnection -> bool) (message : JSON)
    (m : list (string * ClientConnection)) : list Event :=
  flat_map (notify cond message) m.

Definition other_open (fromClientId : string) (kc : string * ClientConnection) : bool :=
  negb (String.eqb (fst kc) fromClientId) && is_open (readyState (ws (snd kc))).

Definition socket_open (kc : string * ClientConnection) : bool :=
  is_open (readyState (ws (snd kc))).

(** The events of one disconnect of [client], registered as [clientId],
    with [remaining] the registry after its removal. *)
Definition kill_events (c : ClientConnection) : list Event :=
  match ffmpegProcess c with
  | Some p => [EvKill p "SIGTERM"]
  | None => []
  end.

Definition disconnect_events (clientId : string) (client : ClientConnection)
    (remaining : list (string * ClientConnection)) : list Event :=
  [EvLog (disconnect_text clientId)]
  ++ map EvStreamEnd (map_values (mediaStreams client))
  ++ kill_events client
  ++ notifications socket_open (peer_disconnected_message clientId) remaining.

Definition close_session (c : ClientConnection) (l : list (nat * PeerConnection)) :
    list (nat * PeerConnection) :=
  match peerConnection c with
  | Some pc =>
      pcs_update pc (fun s => mkPC (remoteDescription s) (localDescription s)
                                   (remoteCandidates s) true) l
  | None => l
  end.

(** ** The claims of the specification that the code does not meet,
    as the specification words them *)

(** [register] fails on an identifier that is present and leaves the
    entry of the existing client as it was. *)
Definition duplicate_client_rejected : Prop :=
  forall w socket clientId client,
    map_get clientId (clients w) = Some client ->
    map_get clientId (clients (exec (onConnection socket (Some clientId)) w)) = Some client.

(** [message] carries a description: [message.payload.sdp] is truthy. *)
Definition carries_sdp (message sdp : JSON) : Prop :=
  exists payload,
    get_prop message "payload" = inr payload /\
    get_prop payload "sdp" = inr sdp /\
    truthy sdp = true.

(** A second [offer] after [AnswerSent] leaves the session of the client
    as it was. *)
Definition second_offer_rejected : Prop :=
  forall o w clientId client message sdp,
    map_get clientId (clients w) = Some client ->
    session_state w client = AnswerSent ->
    carries_sdp message sdp ->
    let w' := exec (handleServerOffer o clientId message) w in
    exists client',
      map_get clientId (clients w') = Some client' /\
      peerConnection client' = peerConnection client.

(** An offer whose description is refused leaves the client with a closed
    session, hence without an active one. *)
Definition failed_offer_abandons_session : Prop :=
  forall o w clientId client message sdp e,
    map_get clientId (clients w) = Some client ->
    carries_sdp message sdp ->
    remote_result o = Some e ->
    let w' := exec (handleServerOffer o clientId message) w in
    forall client',
      map_get clientId (clients w') = Some client' ->
      peerConnection client' <> None ->
      session_state w' client' = Closed.

(** Two calls in a row start at most one subprocess. *)
Definition start_is_idempotent (path_join : list string -> string) : Prop :=
  forall w clientId,
    let w' := exec (startHLSProcessing path_join clientId ;;
                    startHLSProcessing path_join clientId) w in
    List.length (spawned (added_since w w')) <= 1.

(** After the disconnect of a registered client every stream that was
    opened under its output directory has been ended. *)
Definition sinks_ended_after_disconnect (path_join : list string -> string) : Prop :=
  forall w clientId file s,
    reachable path_join w ->
    map_get clientId (clients w) <> None ->
    In (EvCreateWriteStream s (path_join [outputDir; clientId; file])) (trace w) ->
    In s (ended (trace (step path_join (Close clientId) w))).

(** The awaited calls of one offer end in the rejection [e]. *)
Definition negotiation_fails (o : Negotiation) (e : Exn) : Prop :=
  remote_result o = Some e \/
  (remote_result o = None /\ answer_result o = Some e) \/
  (remote_result o = None /\ answer_result o = None /\ local_result o = inl e).

(** ** Sample worlds and messages *)

(** A stand-in for [path.join] at the sample worlds. *)
Definition join_slash (parts : list string) : string := String.concat "/" parts.

Definition offer_message (sdp : string) : JSON :=
  JObj [("type", JStr "server-offer");
        ("payload", JObj [("sdp", JObj [("type", JStr "offer"); ("sdp", JStr sdp)])])].

Definition direct_offer (target claimed_sender : string) : JSON :=
  JObj [("type", JStr "direct-offer");
        ("payload", JObj [("sdp", JObj [("type", JStr "offer"); ("sdp", JStr "v=0")]);
                          ("toPeerID", JStr target);
                          ("fromPeerID", JStr claimed_sender)])].

Definition all_resolve (sdp : string) : External :=
  mkExternal (mkNegotiation None None (inr (Some sdp))) None.

Definition remote_rejects : External :=
  mkExternal (mkNegotiation (Some (LibError "setRemoteDescription")) None (inr None)) None.

(** One client [p1], just connected. *)
Definition one_fresh : World :=
  mkWorld [("p1", new_client "p1" (mkWebSocket 0 OPEN))] [] 1 [].

(** One client [p1] that has completed a negotiation. *)
Definition one_negotiated : World :=
  mkWorld [("p1", mkClient "p1" (mkWebSocket 0 OPEN) (Some 1) [] None)]
          [(1, mkPC (Some (JStr "v=0")) (Some (Some "answer")) [] false)]
          2 [].

(** Two clients with a session each, neither owning a subprocess. *)
Definition two_sessions : World :=
  mkWorld [("a", mkClient "a" (mkWebSocket 0 OPEN) (Some 2) [("video", 4)] None);
           ("b", mkClient "b" (mkWebSocket 1 OPEN) (Some 3) [("video", 6)] None)]
          [(2, mkPC (Some (JStr "v=0")) (Some (Some "answer")) [] false);
           (3, mkPC (Some (JStr "v=0")) (Some (Some "answer")) [] false)]
          8 [].

(** Three clients, the last one with a closing socket; [a] owns a
    subprocess and two sinks. *)
Definition three_clients : World :=
  mkWorld [("a", mkClient "a" (mkWebSocket 0 OPEN) (Some 3) [("audio", 6); ("video", 4)] (Some 7));
           ("b", mkClient "b" (mkWebSocket 1 OPEN) None [] None);
           ("c", mkClient "c" (mkWebSocket 2 CLOSING) None [] None)]
          [(3, mkPC (Some (JStr "v=0")) (Some (Some "answer")) [] false)]
          8 [].

(** Two clients connect, negotiate and publish a video track each; the
    timer of the first then fires twice. *)
Definition two_publishers : list Input :=
  [Connection OPEN (Some "a"); Connection OPEN (Some "b");
   Message "a" (Some (offer_message "v=0")) (all_resolve "answer");
   Message "b" (Some (offer_message "v=0")) (all_resolve "answer");
   Track "a" "video" false; Track "b" "video" false;
   Timer "a"; Timer "a"].

Definition discovery_request : JSON :=
  JObj [("type", JStr "signal-initiate-p2p"); ("payload", JObj [("clientId", JStr "a")])].

(** ** Further definitions for the properties of the handlers *)

(** The message types the dispatcher has a case for. *)
Definition known_kinds : list string :=
  ["signal-initiate-p2p"; "server-offer"; "server-candidate";
   "direct-offer"; "direct-answer"; "direct-candidate"].

(** A message whose [payload] is missing or [null]. *)
Definition no_payload (message : JSON) : Prop :=
  get_prop message "payload" = inr JUndef \/ get_prop message "payload" = inr JNull.

(** [message.payload.candidate] is truthy and holds [inner] under
    [candidate]. *)
Definition carries_candidate (message inner : JSON) : Prop :=
  exists payload candidate,
    get_prop message "payload" = inr payload /\
    get_prop payload "candidate" = inr candidate /\
    truthy candidate = true /\
    get_prop candidate "candidate" = inr inner.

Definition add_candidate (inner : JSON) (s : PeerConnection) : PeerConnection :=
  mkPC (remoteDescription s) (localDescription s) (remoteCandidates s ++ [inner]) (pc_closed s).

Definition candidate_message (candidate : string) : JSON :=
  JObj [("type", JStr "server-candidate");
        ("payload", JObj [("candidate", JObj [("candidate", JStr candidate)])])].

(** A stream that some client of the registry holds in [mediaStreams]. *)
Definition stored_stream (m : list (string * ClientConnection)) (s : nat) : Prop :=
  exists kc kind, In kc m /\ In (kind, s) (mediaStreams (snd kc)).

(** [s'] is [s] further along: what was set is still set, candidates
    were only added, and a closed peer connection is still closed. *)
Definition pc_le (s s' : PeerConnection) : Prop :=
  (forall r, remoteDescription s = Some r -> remoteDescription s' = Some r) /\
  (forall l, localDescription s = Some l -> localDescription s' = Some l) /\
  (exists more, remoteCandidates s' = remoteCandidates s ++ more) /\
  (pc_closed s = true -> pc_closed s' = true).

(** What one callback does to the streams and to the peer connections:
    a stream it stores is the object allocated first, a stream it ends
    was stored, and every peer connection is still there, further
    along. *)
Record progress (w w' : World) : Prop := mk_progress {
  pr_next : next w <= next w';
  pr_streams : forall s, stored_stream (clients w') s ->
      stored_stream (clients w) s \/ (s = next w /\ next w < next w');
  pr_ended : exists added,
      trace w' = trace w ++ added /\
      forall s, In s (ended added) -> stored_stream (clients w) s;
  pr_pcs : forall q s, q < next w -> pcs_get q (pcs w) = Some s ->
      exists s', pcs_get q (pcs w') = Some s' /\ pc_le s s'
}.

Definition streams_fresh (w : World) : Prop :=
  forall s, stored_stream (clients w) s -> s < next w.

(** ** The RTP callbacks of the media sinks (lines 399-421 and 439-449)

    The callback installed on a video track closes over the two streams
    opened for it; the one on an audio track over its single stream.  A
    stream is the bytes written to it so far, a byte an integer from 0 to
    255; [rtp_errors] counts the packets whose processing ended in the
    [catch] of the callback. *)
Module Rtp.

Record Packet : Type := mkPacket {
  payload : list Z;
  payloadType : Z;
  timestamp : Z
}.

(** [Buffer.from([0x00, 0x00, 0x00, 0x01])] *)
Definition nalSeparator : list Z := [0; 0; 0; 1]%Z.

(** The [n] bytes of [v], lowest first, as [writeUInt32LE] ([n = 4]) and
    [writeBigUInt64LE] ([n = 8]) store them. *)
Fixpoint le_bytes (n : nat) (v : Z) : list Z :=
  match n with
  | O => []
  | S k => Z.land v 255 :: le_bytes k (Z.shiftr v 8)
  end.

(** The 12 bytes of [frameHeader] once both writes went through; [None]
    when one of them throws a [RangeError] (a length that does not fit 32
    bits, a timestamp that is negative or does not fit 64 bits). *)
Definition frameHeader (p : Packet) : option (list Z) :=
  let len := Z.of_nat (List.length (payload p)) in
  if ((len <? 2 ^ 32) && (0 <=? timestamp p) && (timestamp p <? 2 ^ 64))%Z
  then Some (le_bytes 4 len ++ le_bytes 8 (timestamp p))
  else None.

Record VideoSink : Type := mkVideoSink {
  h264 : list Z;
  ivf : list Z;
  rtp_errors : nat
}.

Definition is_vp (p : Packet) : bool :=
  ((payloadType p =? 96) || (payloadType p =? 97))%Z.

Definition onReceiveRtp_video (p : Packet) (s : VideoSink) : VideoSink :=
  let written := h264 s ++ nalSeparator ++ payload p in
  if is_vp p
  then match frameHeader p with
       | Some header => mkVideoSink written (ivf s ++ header ++ payload p) (rtp_errors s)
       | None => mkVideoSink written (ivf s) (S (rtp_errors s))
       end
  else mkVideoSink written (ivf s) (rtp_errors s).

Definition onReceiveRtp_audio (p : Packet) (audio : list Z) : list Z :=
  audio ++ payload p.

(** The callbacks run once per packet, in the order of arrival. *)
Definition receive_video (packets : list Packet) (s : VideoSink) : VideoSink :=
  fold_left (fun s p => onReceiveRtp_video p s) packets s.

Definition receive_audio (packets : list Packet) (audio : list Z) : list Z :=
  fold_left (fun a p => onReceiveRtp_audio p a) packets audio.

(** A reader for the frame stream, the inverse the writer is checked
    against: [readUInt32LE], [readBigUInt64LE], then the payload. *)
Definition le_value (bytes : list Z) : Z :=
  fold_right (fun b acc => (b + 256 * acc)%Z) 0%Z bytes.

Fixpoint read_frames (fuel : nat) (bytes : list Z) : option (list (Z * list Z)) :=
  match bytes with
  | [] => Some []
  | _ :: _ =>
      match fuel with
      | O => None
      | S k =>
          let len := Z.to_nat (le_value (firstn 4 bytes)) in
          let ts := le_value (firstn 8 (skipn 4 bytes)) in
          let body := skipn 12 bytes in
          if Nat.ltb (List.length bytes) 12 || Nat.ltb (List.length body) len then None
          else match read_frames k (skipn len body) with
               | Some frames => Some ((ts, firstn len body) :: frames)
               | None => None
               end
      end
  end.

Definition read_ivf (bytes : list Z) : option (list (Z * list Z)) :=
  read_frames (List.length bytes) bytes.

(** The packets that end up in the frame stream, and their bytes there. *)
Definition framed (p : Packet) : bool :=
  is_vp p && match frameHeader p with Some _ => true | None => false end.

Definition frame (p : Packet) : list Z :=
  match frameHeader p with
  | Some header => header ++ payload p
  | None => []
  end.

End Rtp.

(** ** The player page (lines 4-109)

    One run of the effect of [WatchApp]: what it calls on the HLS player
    and on the video element, and whether [hlsRef.current] still holds
    the player.  [supported] is [Hls.isSupported()], [native] whether
    [canPlayType] answered with a non-empty string.  The listeners that
    only start playback are left out. *)
Module Watch.

Inductive ErrorType : Type :=
| NETWORK_ERROR | MEDIA_ERROR | KEY_SYSTEM_ERROR | MUX_ERROR | OTHER_ERROR.

Record ErrorData : Type := mkErrorData {
  fatal : bool;
  type : ErrorType
}.

Inductive Call : Type :=
| LoadSource (url : string)
| AttachMedia
| StartLoad
| RecoverMediaError
| Destroy
| SetSrc (url : string)
| AddLoadedMetadataListener
| Pause
| ReplaceElement
| Alert (text : string)
| ConsoleLog (text : string)
| ConsoleWarn (text : string)
| ConsoleError (text : string).

Record Page : Type := mkPage {
  hlsRef : bool;
  calls : list Call
}.

Definition call (c : list Call) (p : Page) : Page := mkPage (hlsRef p) (calls p ++ c).

(** The body of the effect when the window and the video element exist. *)
Definition mount (supported native : bool) (url : string) (p : Page) : Page :=
  if supported
  then mkPage true
         (calls p ++ [ConsoleLog "HLS.js is supported. Initializing HLS player.";
                      LoadSource url; AttachMedia])
  else if native
  then call [ConsoleLog "Native HLS support detected (e.g., Safari). Setting src directly.";
             SetSrc url; AddLoadedMetadataListener] p
  else call [ConsoleError "HLS is not supported in this browser.";
             Alert "HLS playback is not supported in your browser."] p.

(** The listener of [Hls.Events.ERROR]. *)
Definition onError (data : ErrorData) (p : Page) : Page :=
  if fatal data
  then match type data with
       | NETWORK_ERROR =>
           call [ConsoleError "HLS.js fatal network error encountered, trying to recover:";
                 StartLoad] p
       | MEDIA_ERROR =>
           call [ConsoleError "HLS.js fatal media error encountered, trying to recover:";
                 RecoverMediaError] p
       | _ => mkPage false (calls p ++ [ConsoleError "HLS.js fatal error:"; Destroy])
       end
  else call [ConsoleWarn "HLS.js non-fatal error:"] p.

(** The function the effect returns; [attached] tells whether the video
    element still has a parent node, the only case in which
    [replaceChild] is called. *)
Definition cleanup (attached : bool) (p : Page) : Page :=
  let p1 := if hlsRef p
            then mkPage false (calls p ++ [ConsoleLog "Destroying HLS.js instance."; Destroy])
            else p in
  call ([Pause; SetSrc ""] ++ if attached then [ReplaceElement] else []) p1.

Definition session (supported native attached : bool) (url : string)
    (errors : list ErrorData) : Page :=
  cleanup attached
    (fold_left (fun p d => onError d p) errors (mount supported native url (mkPage false []))).

Definition unrecoverable (d : ErrorData) : bool :=
  fatal d && match type d with NETWORK_ERROR | MEDIA_ERROR => false | _ => true end.

Definition is_fatal (t : ErrorType) (d : ErrorData) : bool :=
  fatal d && match t, type d with
             | NETWORK_ERROR, NETWORK_ERROR | MEDIA_ERROR, MEDIA_ERROR => true
             | _, _ => false
             end.

Definition count_call (f : Call -> bool) (p : Page) : nat := List.length (filter f (calls p)).

Definition is_destroy (c : Call) : bool := match c with Destroy => true | _ => false end.
Definition is_startLoad (c : Call) : bool := match c with StartLoad => true | _ => false end.
Definition is_recover (c : Call) : bool :=
  match c with RecoverMediaError => true | _ => false end.

End Watch.

(** ** Further observations *)




(** The streams opened by [createWriteStream]. *)
Fixpoint opened (t : list Event) : list nat :=
  match t with
  | [] => []
  | EvCreateWriteStream s _ :: rest => s :: opened rest
  | _ :: rest => opened rest
  end.

(** A client without a session registered before two that hold one. *)
Definition spectator_first : World :=
  mkWorld [("x", mkClient "x" (mkWebSocket 0 OPEN) None [] None);
           ("a", mkClient "a" (mkWebSocket 1 OPEN) (Some 3) [] None);
           ("b", mkClient "b" (mkWebSocket 2 OPEN) (Some 4) [] None)]
          [(3, mkPC (Some (JStr "v=0")) (Some (Some "answer")) [] false);
           (4, mkPC (Some (JStr "v=0")) (Some (Some "answer")) [] false)]
          5 [].

(** A client connects, negotiates, publishes a video and an audio track. *)
Definition one_publisher : list Input :=
  [Connection OPEN (Some "a");
   Message "a" (Some (offer_message "v=0")) (all_resolve "answer");
   Track "a" "video" false; Track "a" "audio" true].



(** A peer connection that some client of the registry holds in its
    [peerConnection] field. *)
Definition held_session (m : list (string * ClientConnection)) (pc : nat) : Prop :=
  exists kc, In kc m /\ peerConnection (snd kc) = Some pc.

(** What one callback does to the sessions held: each one held after it
    was held before, or is the object allocated first by the callback and
    is in the store of peer connections. *)
Definition links (w w' : World) : Prop :=
  forall pc, held_session (clients w') pc ->
    held_session (clients w) pc \/
    (pc = next w /\ next w < next w' /\ pcs_get pc (pcs w') <> None).

(** * Properties *)

Local Arguments String.append : simpl never.

(** ** Ordered maps *)
Section OrderedMapFacts.
Context {V : Type}.
Implicit Types (m : list (string * V)) (k : string) (v : V).

Lemma map_get_set_eq k v m : map_get k (map_set k v m) = Some v.
Proof.
  induction m as [|[k' v'] m IH]; simpl.
  - now rewrite String.eqb_refl.
  - destruct (String.eqb k k') eqn:E; simpl; rewrite E; auto.
Qed.

Lemma map_get_set_neq k k' v m :
  k' <> k -> map_get k' (map_set k v m) = map_get k' m.
Proof.
  intros Hne. induction m as [|[k0 v0] m IH]; simpl.
  - apply String.eqb_neq in Hne. now rewrite Hne.
  - destruct (String.eqb k k0) eqn:E; simpl.
    + apply String.eqb_eq in E. subst k0.
      apply String.eqb_neq in Hne. now rewrite Hne.
    + destruct (String.eqb k' k0); auto.
Qed.

Lemma map_keys_set_present k v v0 m :
  map_get k m = Some v0 -> map_keys (map_set k v m) = map_keys m.
Proof.
  induction m as [|[k' v'] m IH]; simpl; [discriminate|].
  destruct (String.eqb k k') eqn:E; simpl; intros H; [reflexivity|].
  f_equal. now apply IH.
Qed.

Lemma map_keys_set_absent k v m :
  map_get k m = None -> map_keys (map_set k v m) = map_keys m ++ [k].
Proof.
  induction m as [|[k' v'] m IH]; simpl; [reflexivity|].
  destruct (String.eqb k k') eqn:E; simpl; intros H; [discriminate|].
  f_equal. now apply IH.
Qed.

Lemma map_get_None_keys k m : map_get k m = None <-> ~ In k (map_keys m).
Proof.
  induction m as [|[k' v'] m IH]; simpl; [tauto|].
  destruct (String.eqb_spec k k') as [->|Hne].
  - split; [discriminate | intros H; exfalso; apply H; now left].
  - rewrite IH. split; [intros H [E|E]; [congruence|tauto] | tauto].
Qed.

Lemma map_get_In k v m : map_get k m = Some v -> In (k, v) m.
Proof.
  induction m as [|[k' v'] m IH]; simpl; [discriminate|].
  destruct (String.eqb_spec k k') as [->|Hne].
  - intros [= ->]. now left.
  - intros H. right. now apply IH.
Qed.

Lemma In_map_get k v m : NoDup (map_keys m) -> In (k, v) m -> map_get k m = Some v.
Proof.
  induction m as [|[k' v'] m IH]; simpl; [tauto|].
  intros Hnd [E|Hin].
  - inversion E; subst. now rewrite String.eqb_refl.
  - inversion Hnd as [|? ? Hnotin Hnd']; subst.
    destruct (String.eqb_spec k k') as [->|Hne].
    + exfalso. apply Hnotin. change (In (fst (k', v)) (map fst m)). now apply in_map.
    + now apply IH.
Qed.

Lemma map_get_delete_eq k m : map_get k (map_delete k m) = None.
Proof.
  unfold map_delete. induction m as [|[k' v'] m IH]; simpl; [reflexivity|].
  destruct (String.eqb k k') eqn:E; simpl; [assumption|]. now rewrite E.
Qed.

Lemma map_get_delete_neq k k' m :
  k' <> k -> map_get k' (map_delete k m) = map_get k' m.
Proof.
  intros Hne. unfold map_delete.
  induction m as [|[k0 v0] m IH]; simpl; [reflexivity|].
  destruct (String.eqb_spec k k0) as [->|Hk]; simpl.
  - apply String.eqb_neq in Hne. now rewrite Hne.
  - now rewrite IH.
Qed.

Lemma map_delete_In kv k m : In kv (map_delete k m) <-> In kv m /\ fst kv <> k.
Proof.
  unfold map_delete. rewrite filter_In.
  destruct (String.eqb_spec k (fst kv)); simpl; intuition congruence.
Qed.

End OrderedMapFacts.

(** ** The monad and the trace *)

Ltac munfold :=
  cbv beta iota zeta delta
    [exec completion bind ret throw lift try_catch get_clients put_clients
     get_pcs put_pcs emit fresh modify_client modify_pc].

Lemma append_trace_nil w : append_trace [] w = w.
Proof. destruct w; unfold append_trace; simpl. now rewrite app_nil_r. Qed.

Lemma append_trace_app es es' w :
  append_trace es' (append_trace es w) = append_trace (es ++ es') w.
Proof. unfold append_trace; simpl. now rewrite app_assoc. Qed.

Lemma emit_run e w : emit e w = (Normal tt, append_trace [e] w).
Proof. reflexivity. Qed.

Lemma added_since_app w w' es : trace w' = trace w ++ es -> added_since w w' = es.
Proof.
  unfold added_since. intros ->.
  rewrite skipn_app, skipn_all, Nat.sub_diag. reflexivity.
Qed.

Lemma added_since_append w es : added_since w (append_trace es w) = es.
Proof. now apply added_since_app. Qed.

Lemma for_each_events {A} (f : A -> M unit) (g : A -> list Event) (l : list A) :
  (forall a w, f a w = (Normal tt, append_trace (g a) w)) ->
  forall w, for_each f l w = (Normal tt, append_trace (flat_map g l) w).
Proof.
  intros Hf. induction l as [|a l IH]; intros w; simpl.
  - unfold ret. now rewrite append_trace_nil.
  - unfold bind. rewrite Hf, IH, append_trace_app. reflexivity.
Qed.

Lemma sends_to_app h t t' : sends_to h (t ++ t') = sends_to h t ++ sends_to h t'.
Proof.
  induction t as [|e t IH]; simpl; [reflexivity|].
  destruct e; simpl; auto. destruct (Nat.eqb h socket); simpl; now rewrite IH.
Qed.

Lemma killed_app t t' : killed (t ++ t') = killed t ++ killed t'.
Proof. induction t as [|e t IH]; simpl; [reflexivity|]. destruct e; simpl; now rewrite ?IH. Qed.

Lemma spawned_app t t' : spawned (t ++ t') = spawned t ++ spawned t'.
Proof. induction t as [|e t IH]; simpl; [reflexivity|]. destruct e; simpl; now rewrite ?IH. Qed.

Lemma ended_app t t' : ended (t ++ t') = ended t ++ ended t'.
Proof. induction t as [|e t IH]; simpl; [reflexivity|]. destruct e; simpl; now rewrite ?IH. Qed.

(** ** Broadcasts *)

Lemma sends_to_notifications_other cond message h m :
  ~ In h (map socket_of m) -> sends_to h (notifications cond message m) = [].
Proof.
  unfold notifications. induction m as [|kc m IH]; simpl; [reflexivity|].
  intros Hnot. rewrite sends_to_app, IH by tauto.
  unfold notify. destruct (cond kc); simpl; [|reflexivity].
  destruct (Nat.eqb_spec h (socket_of kc)) as [->|]; [tauto | reflexivity].
Qed.

(** With one socket per entry, an entry of the registry is sent the
    message once if the loop selects it and not at all otherwise. *)
Lemma sends_to_notifications cond message m kc :
  NoDup (map socket_of m) -> In kc m ->
  sends_to (socket_of kc) (notifications cond message m) =
  if cond kc then [message] else [].
Proof.
  unfold notifications. induction m as [|kc' m IH]; simpl; [tauto|].
  intros Hnd Hin. inversion Hnd as [|? ? Hfresh Hnd']; subst.
  rewrite sends_to_app. destruct Hin as [->|Hin].
  - fold (notifications cond message m).
    rewrite sends_to_notifications_other by assumption.
    unfold notify. destruct (cond kc); simpl; [|reflexivity].
    now rewrite Nat.eqb_refl.
  - rewrite IH by assumption.
    assert (socket_of kc <> socket_of kc') as Hne.
    { intros E. apply Hfresh. rewrite <- E. now apply in_map. }
    unfold notify. destruct (cond kc'); simpl; [|reflexivity].
    apply Nat.eqb_neq in Hne. now rewrite Hne.
Qed.

Lemma notifications_In cond message m e :
  In e (notifications cond message m) ->
  exists kc, In kc m /\ cond kc = true /\ e = EvWsSend (socket_of kc) message.
Proof.
  unfold notifications. rewrite in_flat_map. intros [kc [Hin He]].
  exists kc. unfold notify in He. destruct (cond kc); simpl in He; [|tauto].
  destruct He as [<-|[]]. auto.
Qed.

Lemma notifications_none cond message m :
  (forall kc, In kc m -> cond kc = false) -> notifications cond message m = [].
Proof.
  unfold notifications. induction m as [|kc m IH]; simpl; [reflexivity|].
  intros H. rewrite IH by auto. unfold notify. now rewrite H by auto.
Qed.

Lemma handleInitiateP2P_run fromClientId w :
  handleInitiateP2P fromClientId w =
  (Normal tt,
   append_trace (notifications (other_open fromClientId)
                               (discovery_message fromClientId) (clients w)) w).
Proof.
  unfold handleInitiateP2P, bind, get_clients.
  apply for_each_events. intros [k c] w0. unfold notify_discovery, notify, other_open; simpl.
  destruct (negb (String.eqb k fromClientId) && is_open (readyState (ws c))).
  - reflexivity.
  - unfold ret. now rewrite append_trace_nil.
Qed.

Lemma dispatch_initiate ext clientId client message w :
  map_get clientId (clients w) = Some client ->
  get_prop message "type" = inr (JStr "signal-initiate-p2p") ->
  handleSignalingMessage ext clientId message w = handleInitiateP2P clientId w.
Proof.
  intros Hc Ht. unfold handleSignalingMessage, bind at 1, get_clients.
  rewrite Hc. unfold bind at 1. rewrite Ht. reflexivity.
Qed.

(** C7. A registered client [A] sends the discovery request: the server
    sends the notification
    [{type: "signal-initiate-p2p", payload: {fromPeerID: A}}] once to
    every other registered client whose socket is open, to nobody else
    and not to [A]; nothing else happens, the handler returns normally,
    and with no other client registered the world is left as it was. *)
Theorem C7_discovery_broadcast ext w A a message :
  wf w ->
  map_get A (clients w) = Some a ->
  get_prop message "type" = inr (JStr "signal-initiate-p2p") ->
  let w' := exec (handleSignalingMessage ext A message) w in
  let notification :=
    JObj [("type", JStr "signal-initiate-p2p");
          ("payload", JObj [("fromPeerID", JStr A)])] in
  completion (handleSignalingMessage ext A message) w = Normal tt /\
  w' = append_trace (added_since w w') w /\
  (forall B b, In (B, b) (clients w) ->
     sends_to (handle (ws b)) (added_since w w') =
     if negb (String.eqb B A) && is_open (readyState (ws b))
     then [notification] else []) /\
  sends_to (handle (ws a)) (added_since w w') = [] /\
  (forall e, In e (added_since w w') ->
     exists B b, In (B, b) (clients w) /\ B <> A /\
                 readyState (ws b) = OPEN /\
                 e = EvWsSend (handle (ws b)) notification) /\
  ((forall B, B <> A -> map_get B (clients w) = None) -> w' = w).
Proof.
  intros Hwf Ha Ht w' notification.
  change notification with (discovery_message A). clear notification.
  subst w'. unfold exec, completion.
  rewrite (dispatch_initiate _ _ _ _ _ Ha Ht), handleInitiateP2P_run. simpl.
  rewrite added_since_append.
  assert (forall B b, In (B, b) (clients w) ->
            sends_to (handle (ws b))
              (notifications (other_open A) (discovery_message A) (clients w)) =
            if negb (String.eqb B A) && is_open (readyState (ws b))
            then [discovery_message A] else []) as Hsend.
  { intros B b Hin.
    exact (sends_to_notifications (other_open A) (discovery_message A) _ (B, b)
             (wf_sockets _ Hwf) Hin). }
  repeat split; auto.
  - rewrite (Hsend A a (map_get_In _ _ _ Ha)). now rewrite String.eqb_refl.
  - intros e He. apply notifications_In in He.
    destruct He as [[B b] [Hin [Hc ->]]]. exists B, b.
    unfold other_open in Hc; simpl in Hc. apply andb_true_iff in Hc as [Hn Ho].
    apply negb_true_iff, String.eqb_neq in Hn.
    repeat split; auto. destruct (readyState (ws b)); simpl in Ho; congruence.
  - intros Halone. rewrite notifications_none; [apply append_trace_nil|].
    intros [B b] Hin. unfold other_open; simpl.
    destruct (String.eqb_spec B A) as [->|Hne]; [reflexivity|].
    exfalso. pose proof (In_map_get _ _ _ (wf_keys _ Hwf) Hin) as Hget.
    rewrite (Halone B Hne) in Hget. discriminate.
Qed.

Lemma flat_map_singleton {A B} (f : A -> B) (l : list A) :
  flat_map (fun a => [f a]) l = map f l.
Proof. induction l as [|a l IH]; simpl; [reflexivity | now rewrite IH]. Qed.

Lemma for_each_stream_end (l : list nat) w :
  for_each (fun stream => emit (EvStreamEnd stream)) l w =
  (Normal tt, append_trace (map EvStreamEnd l) w).
Proof.
  rewrite (for_each_events _ (fun s => [EvStreamEnd s])) by reflexivity.
  now rewrite flat_map_singleton.
Qed.

Lemma for_each_notify_disconnected clientId m w :
  for_each (notify_disconnected clientId) m w =
  (Normal tt,
   append_trace (notifications socket_open (peer_disconnected_message clientId) m) w).
Proof.
  apply for_each_events. intros kc w0.
  unfold notify_disconnected, notify, socket_open.
  destruct (is_open (readyState (ws (snd kc)))).
  - reflexivity.
  - unfold ret. now rewrite append_trace_nil.
Qed.

Lemma handleClientDisconnect_run clientId client w :
  map_get clientId (clients w) = Some client ->
  handleClientDisconnect clientId w =
  (Normal tt,
   mkWorld (map_delete clientId (clients w))
           (close_session client (pcs w))
           (next w)
           (trace w ++ disconnect_events clientId client
                         (map_delete clientId (clients w)))).
Proof.
  intros Hc. unfold handleClientDisconnect, bind at 1, get_clients. rewrite Hc.
  unfold disconnect_events, close_session, kill_events, pc_close.
  destruct (peerConnection client), (ffmpegProcess client);
    munfold; simpl;
    rewrite for_each_stream_end; simpl;
    rewrite for_each_notify_disconnected; unfold append_trace; simpl;
    rewrite <- ?app_assoc; simpl; rewrite ?app_nil_r; reflexivity.
Qed.

Lemma sends_to_stream_end h l : sends_to h (map EvStreamEnd l) = [].
Proof. induction l; simpl; auto. Qed.

Lemma sends_to_kill_events h c : sends_to h (kill_events c) = [].
Proof. unfold kill_events. destruct (ffmpegProcess c); reflexivity. Qed.

(** Dropping entries keeps the images of the remaining ones distinct. *)
Lemma NoDup_image_filter {A B} (keep : A -> bool) (image : A -> B) (xs : list A) :
  NoDup (map image xs) -> NoDup (map image (filter keep xs)).
Proof.
  intros Hnd. induction xs as [|x xs IH]; simpl in *; [exact Hnd|].
  apply NoDup_cons_iff in Hnd as [Hnotin Hnd].
  destruct (keep x); simpl; [|now apply IH].
  apply NoDup_cons; [|now apply IH].
  intros Hin. apply Hnotin.
  apply in_map_iff in Hin as [y [Hy Hin]].
  apply filter_In in Hin as [Hin _].
  rewrite <- Hy. now apply in_map.
Qed.

Lemma ended_stream_end l : ended (map EvStreamEnd l) = l.
Proof. induction l as [|s l IH]; simpl; [reflexivity | now rewrite IH]. Qed.

Lemma killed_stream_end l : killed (map EvStreamEnd l) = [].
Proof. induction l; simpl; auto. Qed.

Lemma killed_notifications cond message m : killed (notifications cond message m) = [].
Proof.
  unfold notifications. induction m as [|kc m IH]; simpl; [reflexivity|].
  rewrite killed_app, IH. unfold notify. now destruct (cond kc).
Qed.

Lemma ended_notifications cond message m : ended (notifications cond message m) = [].
Proof.
  unfold notifications. induction m as [|kc m IH]; simpl; [reflexivity|].
  rewrite ended_app, IH. unfold notify. now destruct (cond kc).
Qed.

Lemma spawned_notifications cond message m : spawned (notifications cond message m) = [].
Proof.
  unfold notifications. induction m as [|kc m IH]; simpl; [reflexivity|].
  rewrite spawned_app, IH. unfold notify. now destruct (cond kc).
Qed.

Lemma killed_disconnect_events clientId client remaining :
  killed (disconnect_events clientId client remaining) =
  match ffmpegProcess client with Some p => [p] | None => [] end.
Proof.
  unfold disconnect_events. simpl.
  rewrite !killed_app, killed_stream_end, killed_notifications.
  unfold kill_events. destruct (ffmpegProcess client); reflexivity.
Qed.

Lemma ended_disconnect_events clientId client remaining :
  ended (disconnect_events clientId client remaining) = map_values (mediaStreams client).
Proof.
  unfold disconnect_events. simpl.
  rewrite !ended_app, ended_stream_end, ended_notifications.
  unfold kill_events. destruct (ffmpegProcess client); simpl; now rewrite app_nil_r.
Qed.

(** Disconnect cleanup, what the handler does for a registered client
    [id]: it returns normally whatever fields of the client were
    populated; [id] is no longer in the registry and the other entries
    are as before; the subprocess stored on the client, if any, was sent
    SIGTERM; the streams ended are exactly those stored in
    [mediaStreams]; and every remaining client with an open socket was
    sent [{type: "peer-disconnected", payload: {clientId: id}}] exactly
    once (the others nothing). *)
Theorem C8_disconnect_cleanup w clientId client :
  wf w ->
  map_get clientId (clients w) = Some client ->
  let w' := exec (handleClientDisconnect clientId) w in
  let added := added_since w w' in
  let notification :=
    JObj [("type", JStr "peer-disconnected");
          ("payload", JObj [("clientId", JStr clientId)])] in
  completion (handleClientDisconnect clientId) w = Normal tt /\
  map_get clientId (clients w') = None /\
  (forall k, k <> clientId -> map_get k (clients w') = map_get k (clients w)) /\
  (forall p, ffmpegProcess client = Some p ->
     In (EvKill p "SIGTERM") added /\ killed added = [p]) /\
  (forall kind s, In (kind, s) (mediaStreams client) -> In (EvStreamEnd s) added) /\
  ended added = map_values (mediaStreams client) /\
  (forall k other, In (k, other) (clients w') ->
     sends_to (handle (ws other)) added =
     if is_open (readyState (ws other))
     then [notification] else []).
Proof.
  intros Hwf Hc w' added notification.
  change notification with (peer_disconnected_message clientId). clear notification.
  subst added w'. unfold exec, completion.
  rewrite (handleClientDisconnect_run _ _ _ Hc). simpl.
  rewrite (added_since_app w _ (disconnect_events clientId client
                                  (map_delete clientId (clients w)))) by reflexivity.
  split; [reflexivity|].
  split; [apply map_get_delete_eq|].
  split; [intros k Hk; now apply map_get_delete_neq|].
  split; [|split; [|split]].
  - intros p Hp. split.
    + unfold disconnect_events. rewrite !in_app_iff. right; right; left.
      unfold kill_events. rewrite Hp. now left.
    + now rewrite killed_disconnect_events, Hp.
  - intros kind s Hin. unfold disconnect_events. rewrite !in_app_iff. right; left.
    apply in_map. unfold map_values.
    change s with (snd (kind, s)). now apply in_map.
  - apply ended_disconnect_events.
  - intros k other Hin. unfold disconnect_events. simpl.
    rewrite !sends_to_app, sends_to_stream_end, sends_to_kill_events. simpl.
    apply (sends_to_notifications socket_open (peer_disconnected_message clientId)
             (map_delete clientId (clients w)) (k, other)); [|assumption].
    unfold map_delete. apply (NoDup_image_filter _ socket_of). now apply wf_sockets.
Qed.

(** ** Relay *)

Lemma get_prop_defined v k x :
  get_prop v k = inr x -> x <> JUndef -> exists members, v = JObj members /\ map_get k members = Some x.
Proof.
  destruct v; simpl; try discriminate; try (intros [= <-]; congruence).
  destruct (map_get k members) eqn:E; intros [= <-]; [|congruence].
  intros _. now exists members.
Qed.

Lemma dispatch_direct ext clientId client message t w :
  map_get clientId (clients w) = Some client ->
  get_prop message "type" = inr (JStr t) ->
  In t ["direct-offer"; "direct-answer"; "direct-candidate"] ->
  handleSignalingMessage ext clientId message w = relayP2PMessage clientId message w.
Proof.
  intros Hc Ht Hin. unfold handleSignalingMessage, bind at 1, get_clients.
  rewrite Hc. unfold bind at 1. rewrite Ht. simpl.
  simpl in Hin. destruct Hin as [<-|[<-|[<-|[]]]]; reflexivity.
Qed.

Lemma registered_id_nonempty w k c :
  wf w -> map_get k (clients w) = Some c -> k <> "".
Proof.
  intros Hwf Hc. apply map_get_In in Hc.
  pose proof (wf_clients _ Hwf) as Hall. rewrite Forall_forall in Hall.
  exact (proj1 (Hall _ Hc)).
Qed.

Lemma relayP2PMessage_run fromClientId message payload target w :
  get_prop message "payload" = inr (JObj payload) ->
  map_get "toPeerID" payload = Some (JStr target) ->
  relayP2PMessage fromClientId message w =
  (Normal tt,
   if String.eqb target "" then w
   else match map_get target (clients w) with
        | Some targetClient =>
            if is_open (readyState (ws targetClient))
            then append_trace [EvWsSend (handle (ws targetClient))
                                        (relay_message fromClientId message)] w
            else w
        | None => w
        end).
Proof.
  intros Hp Ht. unfold relayP2PMessage, bind, lift, ret, get_clients.
  rewrite Hp. simpl. rewrite Ht. simpl.
  destruct (String.eqb target ""); simpl; [reflexivity|].
  destruct (map_get target (clients w)) as [b|]; [|reflexivity].
  destruct (is_open (readyState (ws b))); reflexivity.
Qed.

(** C6. A registered client [A] sends a direct-offer, direct-answer or
    direct-candidate whose payload names the target [B].  If [B] is
    registered with an open socket, the one effect is a [send] on the
    socket of [B] of the message with every member as received, except
    that [payload.fromPeerID] is [A] whatever the sender put there.  If
    [B] is not registered or its socket is not open, the world is left as
    it was.  In both cases the handler returns normally. *)
Theorem C6_direct_relay ext w A a message t payload B :
  wf w ->
  map_get A (clients w) = Some a ->
  get_prop message "type" = inr (JStr t) ->
  In t ["direct-offer"; "direct-answer"; "direct-candidate"] ->
  get_prop message "payload" = inr (JObj payload) ->
  map_get "toPeerID" payload = Some (JStr B) ->
  let w' := exec (handleSignalingMessage ext A message) w in
  completion (handleSignalingMessage ext A message) w = Normal tt /\
  (forall b, map_get B (clients w) = Some b -> readyState (ws b) = OPEN ->
     w' = append_trace [EvWsSend (handle (ws b)) (relay_message A message)] w) /\
  (map_get B (clients w) = None -> w' = w) /\
  (forall b, map_get B (clients w) = Some b -> readyState (ws b) <> OPEN -> w' = w) /\
  exists members members' payload',
    message = JObj members /\
    relay_message A message = JObj members' /\
    map_keys members' = map_keys members /\
    (forall k, k <> "payload" -> map_get k members' = map_get k members) /\
    map_get "payload" members' = Some (JObj payload') /\
    map_get "fromPeerID" payload' = Some (JStr A) /\
    (forall k, k <> "fromPeerID" -> map_get k payload' = map_get k payload).
Proof.
  intros Hwf Ha Ht Hin Hp HB w'. subst w'. unfold exec, completion.
  rewrite (dispatch_direct _ _ _ _ _ _ Ha Ht Hin).
  rewrite (relayP2PMessage_run _ _ _ _ _ Hp HB). simpl.
  destruct (get_prop_defined _ _ _ Hp ltac:(discriminate)) as [members [-> Hpm]].
  assert (exists members' payload',
    relay_message A (JObj members) = JObj members' /\
    map_keys members' = map_keys members /\
    (forall k, k <> "payload" -> map_get k members' = map_get k members) /\
    map_get "payload" members' = Some (JObj payload') /\
    map_get "fromPeerID" payload' = Some (JStr A) /\
    (forall k, k <> "fromPeerID" -> map_get k payload' = map_get k payload)) as Hrelay.
  { exists (map_set "payload" (JObj (map_set "fromPeerID" (JStr A) payload)) members),
           (map_set "fromPeerID" (JStr A) payload).
    split; [unfold relay_message; rewrite Hp; reflexivity|].
    split; [now apply map_keys_set_present with (v0 := JObj payload)|].
    split; [intros k Hk; now apply map_get_set_neq|].
    split; [apply map_get_set_eq|].
    split; [apply map_get_set_eq|].
    intros k Hk. now apply map_get_set_neq. }
  assert (exists members0 members' payload',
    JObj members = JObj members0 /\
    relay_message A (JObj members) = JObj members' /\
    map_keys members' = map_keys members0 /\
    (forall k, k <> "payload" -> map_get k members' = map_get k members0) /\
    map_get "payload" members' = Some (JObj payload') /\
    map_get "fromPeerID" payload' = Some (JStr A) /\
    (forall k, k <> "fromPeerID" -> map_get k payload' = map_get k payload)) as Hshape.
  { destruct Hrelay as (m' & p' & H). exists members, m', p'. tauto. }
  clear Hrelay.
  destruct (String.eqb_spec B "") as [->|HBne]; simpl.
  - (* an empty target is falsy; no registered client has the empty id *)
    assert (map_get "" (clients w) = None) as Hnone.
    { destruct (map_get "" (clients w)) eqn:E; [|reflexivity].
      exfalso. now apply (registered_id_nonempty w "" c). }
    split; [reflexivity|]. split; [intros; congruence|].
    split; [reflexivity|]. split; [reflexivity | exact Hshape].
  - destruct (map_get B (clients w)) as [b|] eqn:Hb.
    + split; [reflexivity|]. split; [|split; [|split; [|exact Hshape]]].
      * intros b' [= <-] Hr. now rewrite Hr.
      * discriminate.
      * intros b' [= <-] Hr. destruct (readyState (ws b)); simpl; congruence.
    + split; [reflexivity|]. split; [intros; congruence|].
      split; [reflexivity|]. split; [intros; congruence | exact Hshape].
Qed.

(** ** Peer connections *)

Lemma pcs_get_app q l l' :
  pcs_get q (l ++ l') =
  match pcs_get q l with Some s => Some s | None => pcs_get q l' end.
Proof.
  induction l as [|[q' s'] l IH]; simpl; [reflexivity|].
  destruct (Nat.eqb q q'); auto.
Qed.

Lemma pcs_get_update_eq pc f l :
  pcs_get pc (pcs_update pc f l) = option_map f (pcs_get pc l).
Proof.
  unfold pcs_update. induction l as [|[q s] l IH]; simpl; [reflexivity|].
  destruct (Nat.eqb pc q) eqn:E; simpl; rewrite E; auto.
Qed.

Lemma pcs_get_update_neq pc q f l :
  q <> pc -> pcs_get q (pcs_update pc f l) = pcs_get q l.
Proof.
  intros Hne. unfold pcs_update. induction l as [|[q' s] l IH]; simpl; [reflexivity|].
  destruct (Nat.eqb_spec pc q') as [->|Hpc]; simpl.
  - apply Nat.eqb_neq in Hne. now rewrite Hne.
  - destruct (Nat.eqb q q'); auto.
Qed.

Lemma pcs_get_bound q s n l :
  Forall (fun qs => fst qs < n) l -> pcs_get q l = Some s -> q < n.
Proof.
  induction 1 as [|[q' s'] l Hq Hall IH]; simpl; [discriminate|].
  destruct (Nat.eqb_spec q q') as [->|]; auto.
Qed.

Lemma pcs_get_next w : wf w -> pcs_get (next w) (pcs w) = None.
Proof.
  intros Hwf. destruct (pcs_get (next w) (pcs w)) eqn:E; [|reflexivity].
  apply (pcs_get_bound _ _ _ _ (wf_pcs _ Hwf)) in E. lia.
Qed.

(** ** Server-mediated offers *)

Lemma truthy_get_prop v k : truthy v = true -> exists x, get_prop v k = inr x.
Proof.
  destruct v; simpl; try discriminate; eauto.
  destruct (map_get k members); eauto.
Qed.

Lemma handleServerOffer_run o clientId client message sdp w :
  map_get clientId (clients w) = Some client ->
  carries_sdp message sdp ->
  exists inner,
    get_prop sdp "sdp" = inr inner /\
    handleServerOffer o clientId message w =
    (Normal tt,
     let pc := next w in
     let registry := map_set clientId (with_peerConnection pc client) (clients w) in
     let created := pcs w ++ [(pc, mkPC None None [] false)] in
     let remote := pcs_update pc (fun s => mkPC (Some inner) (localDescription s)
                                               (remoteCandidates s) (pc_closed s)) created in
     let failed e l := mkWorld registry l (S pc)
                         (trace w ++ [EvError (offer_error_text clientId) e]) in
     match remote_result o with
     | Some e => failed e created
     | None =>
         match answer_result o with
         | Some e => failed e remote
         | None =>
             match local_result o with
             | inl e => failed e remote
             | inr local =>
                 let answered :=
                   pcs_update pc (fun s => mkPC (remoteDescription s) (Some local)
                                                (remoteCandidates s) (pc_closed s)) remote in
                 mkWorld registry answered (S pc)
                   (trace w ++
                    [EvWsSend (handle (ws client))
                       (answer_message
                          match pcs_get pc answered with
                          | Some s => match localDescription s with
                                      | Some l => l | None => None end
                          | None => None
                          end)])
             end
         end
     end).
Proof.
  intros Hc (payload & Hp & Hs & Ht).
  destruct (truthy_get_prop sdp "sdp" Ht) as [inner Hinner].
  exists inner. split; [assumption|].
  unfold handleServerOffer, bind at 1, get_clients. rewrite Hc.
  unfold bind at 1. rewrite Hp. simpl. unfold bind at 1. rewrite Hs. simpl.
  rewrite Ht. simpl.
  unfold try_catch, newPeerConnection, setRemoteDescription, createAnswer,
    setLocalDescription, localDescription_sdp.
  munfold. simpl. rewrite Hc, Hinner. simpl.
  destruct (remote_result o); simpl; [reflexivity|].
  destruct (answer_result o); simpl; [reflexivity|].
  destruct (local_result o); simpl; reflexivity.
Qed.

Lemma offer_pcs_new w inner local :
  wf w ->
  pcs_get (next w)
    (pcs_update (next w)
       (fun s => mkPC (remoteDescription s) (Some local) (remoteCandidates s) (pc_closed s))
       (pcs_update (next w)
          (fun s => mkPC (Some inner) (localDescription s) (remoteCandidates s) (pc_closed s))
          (pcs w ++ [(next w, mkPC None None [] false)]))) =
  Some (mkPC (Some inner) (Some local) [] false).
Proof.
  intros Hwf. rewrite !pcs_get_update_eq, pcs_get_app, (pcs_get_next _ Hwf).
  simpl. now rewrite Nat.eqb_refl.
Qed.

Lemma handleServerOffer_resolved o w clientId client message sdp local :
  wf w ->
  map_get clientId (clients w) = Some client ->
  carries_sdp message sdp ->
  remote_result o = None ->
  answer_result o = None ->
  local_result o = inr local ->
  exists inner,
    handleServerOffer o clientId message w =
    (Normal tt,
     mkWorld (map_set clientId (with_peerConnection (next w) client) (clients w))
       (pcs_update (next w)
          (fun s => mkPC (remoteDescription s) (Some local) (remoteCandidates s) (pc_closed s))
          (pcs_update (next w)
             (fun s => mkPC (Some inner) (localDescription s) (remoteCandidates s) (pc_closed s))
             (pcs w ++ [(next w, mkPC None None [] false)])))
       (S (next w))
       (trace w ++ [EvWsSend (handle (ws client)) (answer_message local)])).
Proof.
  intros Hwf Hc Hsdp Hr Ha Hl.
  destruct (handleServerOffer_run o _ _ _ _ _ Hc Hsdp) as [inner [Hinner ->]].
  exists inner. rewrite Hr, Ha, Hl. cbv zeta. now rewrite (offer_pcs_new _ _ _ Hwf).
Qed.







(** C4, counterexample. A second offer is not turned away: on
    [one_negotiated] the client
    ends up with another peer connection. *)
Lemma C4_second_offer_not_rejected : ~ second_offer_rejected.
Proof.
  intros H.
  destruct (H (negotiation (all_resolve "answer2")) one_negotiated "p1"
              (mkClient "p1" (mkWebSocket 0 OPEN) (Some 1) [] None)
              (offer_message "v=0")
              (JObj [("type", JStr "offer"); ("sdp", JStr "v=0")])
              eq_refl eq_refl) as [client' [Hget Hpc]].
  - exists (JObj [("sdp", JObj [("type", JStr "offer"); ("sdp", JStr "v=0")])]).
    repeat split.
  - vm_compute in Hget. injection Hget as <-. discriminate.
Qed.

(** C4 (as the code has it). An offer from a client whose session has
    reached [AnswerSent] is handled like a first one: the handler returns
    normally, a newly created peer connection replaces the one stored on
    the client, the earlier peer connection is left as it was (not
    closed), and when the awaited calls resolve a further answer is
    sent. *)
Theorem C4_second_offer_replaces_session o w clientId client message sdp :
  wf w ->
  map_get clientId (clients w) = Some client ->
  session_state w client = AnswerSent ->
  carries_sdp message sdp ->
  let w' := exec (handleServerOffer o clientId message) w in
  completion (handleServerOffer o clientId message) w = Normal tt /\
  map_get clientId (clients w') = Some (with_peerConnection (next w) client) /\
  (exists pc0 s0,
     peerConnection client = Some pc0 /\ pc0 <> next w /\
     pcs_get pc0 (pcs w) = Some s0 /\ pcs_get pc0 (pcs w') = Some s0 /\
     pc_closed s0 = false) /\
  (forall local,
     remote_result o = None -> answer_result o = None -> local_result o = inr local ->
     added_since w w' = [EvWsSend (handle (ws client)) (answer_message local)]).
Proof.
  intros Hwf Hc Hstate Hsdp w'.
  assert (exists pc0 s0, peerConnection client = Some pc0 /\
            pcs_get pc0 (pcs w) = Some s0 /\ pc_closed s0 = false) as (pc0 & s0 & Hpc & Hs0 & Hopen).
  { unfold session_state in Hstate.
    destruct (peerConnection client) as [pc0|]; [|discriminate].
    destruct (pcs_get pc0 (pcs w)) as [s0|] eqn:E; [|discriminate].
    exists pc0, s0. split; [reflexivity|]. split; [assumption|].
    unfold pc_state in Hstate. destruct (pc_closed s0); [discriminate | reflexivity]. }
  assert (pc0 <> next w) as Hne.
  { pose proof (pcs_get_bound _ _ _ _ (wf_pcs _ Hwf) Hs0). lia. }
  split; [|split; [|split]].
  - unfold completion.
    destruct (handleServerOffer_run o _ _ _ _ _ Hc Hsdp) as [inner [_ ->]]. reflexivity.
  - subst w'. unfold exec.
    destruct (handleServerOffer_run o _ _ _ _ _ Hc Hsdp) as [inner [_ ->]]. cbv zeta.
    destruct (remote_result o); [apply map_get_set_eq|].
    destruct (answer_result o); [apply map_get_set_eq|].
    destruct (local_result o); apply map_get_set_eq.
  - exists pc0, s0. repeat split; auto.
    subst w'. unfold exec.
    destruct (handleServerOffer_run o _ _ _ _ _ Hc Hsdp) as [inner [_ ->]]. cbv zeta.
    destruct (remote_result o); [|destruct (answer_result o); [|destruct (local_result o)]];
      simpl; rewrite ?pcs_get_update_neq by assumption;
      rewrite pcs_get_app, Hs0; reflexivity.
  - intros local Hr Ha Hl. subst w'. unfold exec.
    destruct (handleServerOffer_resolved o _ _ _ _ _ _ Hwf Hc Hsdp Hr Ha Hl) as [inner ->].
    now apply added_since_app.
Qed.

(** Whatever a message makes the dispatcher do, the listener of the
    socket returns normally: the one [try]/[catch] around it logs. *)
Lemma onMessage_returns ext clientId data w :
  completion (onMessage ext clientId data) w = Normal tt.
Proof.
  unfold completion, onMessage, try_catch.
  destruct ((message <- match data with Some v => ret v | None => throw SyntaxError end ;;
             handleSignalingMessage ext clientId message) w) as [[[]|e] w1]; reflexivity.
Qed.

(** C5, counterexample. A refused description does not close the
    session: on [one_fresh]
    the client is left holding an open peer connection. *)
Lemma C5_failed_offer_keeps_session : ~ failed_offer_abandons_session.
Proof.
  intros H.
  assert (session_state
            (exec (handleServerOffer (negotiation remote_rejects) "p1"
                     (offer_message "garbage")) one_fresh)
            (with_peerConnection 1 (new_client "p1" (mkWebSocket 0 OPEN))) = Closed) as Hclosed.
  { apply (H (negotiation remote_rejects) one_fresh "p1"
             (new_client "p1" (mkWebSocket 0 OPEN)) (offer_message "garbage")
             (JObj [("type", JStr "offer"); ("sdp", JStr "garbage")])
             (LibError "setRemoteDescription")).
    - reflexivity.
    - exists (JObj [("sdp", JObj [("type", JStr "offer"); ("sdp", JStr "garbage")])]).
      repeat split.
    - reflexivity.
    - reflexivity.
    - discriminate. }
  vm_compute in Hclosed. discriminate.
Qed.

(** C5 (as the code has it). When an awaited call of the offer handler
    is rejected with [e], the handler returns normally and so does the
    message listener; its one effect on the outside is the logged error
    [e] (no answer is sent); the entries of the other clients and the
    other peer connections are as before.  The peer connection created
    for the offer stays stored on the client and is not closed: the
    client counts as having a session, in state [OfferReceived]. *)
Theorem C5_failed_offer_logged_and_contained ext o w clientId client message sdp e :
  wf w ->
  map_get clientId (clients w) = Some client ->
  carries_sdp message sdp ->
  negotiation_fails o e ->
  let w' := exec (handleServerOffer o clientId message) w in
  completion (handleServerOffer o clientId message) w = Normal tt /\
  completion (onMessage ext clientId (Some message)) w = Normal tt /\
  added_since w w' = [EvError (offer_error_text clientId) e] /\
  (forall k, k <> clientId -> map_get k (clients w') = map_get k (clients w)) /\
  (forall q, q <> next w -> pcs_get q (pcs w') = pcs_get q (pcs w)) /\
  map_get clientId (clients w') = Some (with_peerConnection (next w) client) /\
  has_session (with_peerConnection (next w) client) = true /\
  session_state w' (with_peerConnection (next w) client) = OfferReceived.
Proof.
  intros Hwf Hc Hsdp Hfail w'. subst w'. unfold exec, completion at 1.
  destruct (handleServerOffer_run o _ _ _ _ _ Hc Hsdp) as [inner [_ ->]]. cbv zeta.
  split; [reflexivity|]. split; [apply onMessage_returns|].
  pose proof (pcs_get_next _ Hwf) as Hfresh.
  destruct Hfail as [Hr|[[Hr Ha]|[Hr [Ha Hl]]]]; rewrite ?Hr, ?Ha, ?Hl; simpl;
    (split; [now apply added_since_app|]);
    (split; [intros k Hk; now apply map_get_set_neq|]);
    (split; [intros q Hq; rewrite ?pcs_get_update_neq by assumption;
             rewrite pcs_get_app; destruct (pcs_get q (pcs w)); [reflexivity|];
             simpl; apply Nat.eqb_neq in Hq; now rewrite Hq|]);
    (split; [apply map_get_set_eq|]);
    (split; [reflexivity|]);
    unfold session_state; simpl;
    rewrite ?pcs_get_update_eq, pcs_get_app, Hfresh; simpl;
    rewrite Nat.eqb_refl; reflexivity.
Qed.

(** ** Registration *)

(** C1, counterexample. A connection under an identifier that is
    present is not turned away:
    on [one_negotiated] the entry of [p1] is replaced. *)
Lemma C1_duplicate_not_rejected : ~ duplicate_client_rejected.
Proof.
  intros H.
  specialize (H one_negotiated (mkWebSocket 2 OPEN) "p1"
                (mkClient "p1" (mkWebSocket 0 OPEN) (Some 1) [] None) eq_refl).
  vm_compute in H. discriminate.
Qed.

(** C1 (as the code has it). A connection that carries an identifier
    already in the registry is accepted: the handler returns normally,
    the entry under the identifier becomes a new client with the new
    socket and no session, sinks or subprocess, at the place the old
    entry had in the iteration order; the other entries and all peer
    connections are as before, and the one effect on the outside is the
    log line (nothing of the old entry is closed, ended or signalled). *)
Theorem C1_duplicate_id_replaces_entry w socket clientId client :
  wf w ->
  map_get clientId (clients w) = Some client ->
  let w' := exec (onConnection socket (Some clientId)) w in
  completion (onConnection socket (Some clientId)) w = Normal tt /\
  map_get clientId (clients w') = Some (new_client clientId socket) /\
  map_keys (clients w') = map_keys (clients w) /\
  (forall k, k <> clientId -> map_get k (clients w') = map_get k (clients w)) /\
  pcs w' = pcs w /\
  added_since w w' = [EvLog ("Client " ++ clientId ++ " connected")].
Proof.
  intros Hwf Hc w'. subst w'.
  pose proof (registered_id_nonempty _ _ _ Hwf Hc) as Hne.
  apply String.eqb_neq in Hne.
  unfold exec, completion, onConnection, absent_id. rewrite Hne. munfold. simpl.
  split; [reflexivity|]. split; [apply map_get_set_eq|].
  split; [now apply map_keys_set_present with (v0 := client)|].
  split; [intros k Hk; now apply map_get_set_neq|].
  split; [reflexivity|]. now apply added_since_app.
Qed.

(** ** Starting the transcoder *)

Lemma active_values_length (m : list (string * ClientConnection)) :
  List.length (filter has_session (map_values m)) = List.length (active_entries m).
Proof.
  unfold active_entries, map_values.
  induction m as [|[k c] m IH]; simpl; [reflexivity|].
  destruct (has_session c); simpl; now rewrite IH.
Qed.

Lemma startHLSProcessing_owned pj clientId client p w :
  map_get clientId (clients w) = Some client ->
  ffmpegProcess client = Some p ->
  startHLSProcessing pj clientId w = (Normal tt, w).
Proof.
  intros Hc Hp. unfold startHLSProcessing, bind, get_clients. now rewrite Hc, Hp.
Qed.

Lemma startHLSProcessing_unregistered pj clientId w :
  map_get clientId (clients w) = None ->
  startHLSProcessing pj clientId w = (Normal tt, w).
Proof.
  intros Hc. unfold startHLSProcessing, bind, get_clients. now rewrite Hc.
Qed.

Lemma createCompositeHLSStream_run pj w :
  createCompositeHLSStream pj w =
  (Normal tt,
   match active_entries (clients w) with
   | (id1, _) :: (id2, _) :: _ =>
       mkWorld (clients w) (pcs w) (S (next w))
         (trace w ++
          [EvSpawn (next w) "ffmpeg"
             (composite_args (pj [outputDir; id1; "video.h264"])
                             (pj [outputDir; id2; "video.h264"])
                             (pj [outputDir; id1; "audio.ogg"])
                             (pj [hlsDir; "playlist.m3u8"]));
           EvLog "Started composite HLS stream processing"])
   | _ => w
   end).
Proof.
  unfold createCompositeHLSStream, bind at 1, get_clients.
  destruct (active_entries (clients w)) as [|[id1 c1] [|[id2 c2] rest]]; try reflexivity.
  unfold spawn. munfold. simpl. now rewrite <- app_assoc.
Qed.

Lemma createSingleClientHLSStream_run clientId client videoPath audioPath hlsPath w :
  map_get clientId (clients w) = Some client ->
  createSingleClientHLSStream clientId videoPath audioPath hlsPath w =
  (Normal tt,
   mkWorld (map_set clientId (with_ffmpegProcess (next w) client) (clients w))
     (pcs w) (S (next w))
     (trace w ++
      [EvSpawn (next w) "ffmpeg" (single_args videoPath audioPath hlsPath);
       EvLog ("Started HLS processing for client " ++ clientId)])).
Proof.
  intros Hc. unfold createSingleClientHLSStream, bind at 1, get_clients. rewrite Hc.
  unfold spawn. munfold. simpl. rewrite Hc. simpl. now rewrite <- app_assoc.
Qed.

Lemma startHLSProcessing_run pj clientId client w :
  map_get clientId (clients w) = Some client ->
  ffmpegProcess client = None ->
  startHLSProcessing pj clientId w =
  if Nat.leb 2 (List.length (active_entries (clients w)))
  then createCompositeHLSStream pj w
  else createSingleClientHLSStream clientId
         (pj [pj [outputDir; clientId]; "video.h264"])
         (pj [pj [outputDir; clientId]; "audio.ogg"])
         (pj [hlsDir; "playlist.m3u8"]) w.
Proof.
  intros Hc Hp. unfold startHLSProcessing, bind at 1, get_clients.
  rewrite Hc, Hp. cbv zeta. rewrite active_values_length.
  destruct (Nat.leb 2 (List.length (active_entries (clients w)))); reflexivity.
Qed.

Lemma filter_head {A : Type} (keep : A -> bool) (xs : list A) (hit : A) (others : list A) :
  filter keep xs = hit :: others ->
  exists skipped later,
    xs = skipped ++ hit :: later /\
    (forall x, In x skipped -> keep x = false) /\
    keep hit = true /\
    filter keep later = others.
Proof.
  induction xs as [|x xs IH]; simpl; [discriminate|].
  destruct (keep x) eqn:Ex.
  - intros [= -> <-]. exists [], xs. simpl. now repeat split.
  - intros Hf. destruct (IH Hf) as (skipped & later & -> & Hs & Hh & Hl).
    exists (x :: skipped), later. split; [reflexivity|]. split; [|now split].
    intros y [<-|Hy]; [exact Ex | now apply Hs].
Qed.

(** C3. [startHLSProcessing] for a registered client that owns no
    subprocess.  The clients that count are exactly the entries of the
    registry whose [peerConnection] is set.  With two or more of them it
    starts one ffmpeg on the composite argument list: the videos of the
    first two such clients in the iteration order of the registry (every
    entry before the first, and between the first and the second, has no
    peer connection), stacked side by side, with the audio of the first,
    written to the playlist in the HLS directory; no entry of the
    registry changes.  Otherwise it starts one ffmpeg on the
    single-client argument list: the video and audio of that client,
    written to the same playlist, and stores the process on the client. *)
Theorem C3_decision_rule pj w clientId client :
  map_get clientId (clients w) = Some client ->
  ffmpegProcess client = None ->
  let w' := exec (startHLSProcessing pj clientId) w in
  let out := pj [hlsDir; "playlist.m3u8"] in
  let holders :=
    filter (fun entry => match peerConnection (snd entry) with
                         | Some _ => true
                         | None => false
                         end) (clients w) in
  completion (startHLSProcessing pj clientId) w = Normal tt /\
  (2 <= List.length holders ->
     exists id1 c1 id2 c2 rest,
       holders = (id1, c1) :: (id2, c2) :: rest /\
       (exists before between behind,
          clients w = before ++ (id1, c1) :: between ++ (id2, c2) :: behind /\
          (forall k c, In (k, c) (before ++ between) -> peerConnection c = None) /\
          peerConnection c1 <> None /\ peerConnection c2 <> None) /\
       added_since w w' =
         [EvSpawn (next w) "ffmpeg"
            (["-re"; "-i"; pj [outputDir; id1; "video.h264"];
              "-i"; pj [outputDir; id2; "video.h264"];
              "-i"; pj [outputDir; id1; "audio.ogg"];
              "-filter_complex"; "[0:v][1:v]hstack=inputs=2[v]";
              "-map"; "[v]"; "-map"; "2:a";
              "-c:v"; "libx264"; "-preset"; "ultrafast"; "-tune"; "zerolatency";
              "-c:a"; "aac"; "-b:a"; "128k";
              "-f"; "hls"; "-hls_time"; "2"; "-hls_list_size"; "10";
              "-hls_flags"; "delete_segments"; "-hls_allow_cache"; "0"; out]);
          EvLog "Started composite HLS stream processing"] /\
       clients w' = clients w) /\
  (List.length holders < 2 ->
     added_since w w' =
       [EvSpawn (next w) "ffmpeg"
          (["-re"; "-i"; pj [pj [outputDir; clientId]; "video.h264"];
            "-i"; pj [pj [outputDir; clientId]; "audio.ogg"];
            "-c:v"; "libx264"; "-preset"; "ultrafast"; "-tune"; "zerolatency";
            "-c:a"; "aac"; "-b:a"; "128k";
            "-f"; "hls"; "-hls_time"; "2"; "-hls_list_size"; "10";
            "-hls_flags"; "delete_segments"; "-hls_allow_cache"; "0"; out]);
        EvLog ("Started HLS processing for client " ++ clientId)] /\
     map_get clientId (clients w') = Some (with_ffmpegProcess (next w) client) /\
     (forall k, k <> clientId -> map_get k (clients w') = map_get k (clients w))).
Proof.
  intros Hc Hp w' out holders.
  change holders with (active_entries (clients w)). clear holders.
  subst w' out. unfold exec, completion.
  rewrite (startHLSProcessing_run pj _ _ _ Hc Hp).
  destruct (Nat.leb_spec 2 (List.length (active_entries (clients w)))) as [Hge|Hlt].
  - rewrite createCompositeHLSStream_run.
    split; [reflexivity|]. split; [|intros; lia].
    intros _.
    destruct (active_entries (clients w)) as [|[id1 c1] [|[id2 c2] rest]] eqn:Eactive;
      simpl in Hge; try lia.
    exists id1, c1, id2, c2, rest. simpl.
    split; [reflexivity|]. split; [|split; [now apply added_since_app | reflexivity]].
    unfold active_entries in Eactive.
    destruct (filter_head _ _ _ _ Eactive) as (before & later & Hsplit & Hbefore & H1 & Hlater).
    destruct (filter_head _ _ _ _ Hlater) as (between & behind & -> & Hbetween & H2 & _).
    exists before, between, behind. split; [exact Hsplit|].
    unfold has_session in *. simpl in *.
    split; [|split].
    + intros k c Hin. apply in_app_or in Hin as [Hin|Hin].
      * specialize (Hbefore _ Hin). simpl in Hbefore.
        now destruct (peerConnection c).
      * specialize (Hbetween _ Hin). simpl in Hbetween.
        now destruct (peerConnection c).
    + now destruct (peerConnection c1).
    + now destruct (peerConnection c2).
  - rewrite (createSingleClientHLSStream_run _ _ _ _ _ _ Hc).
    split; [reflexivity|]. split; [intros; lia|].
    intros _. simpl.
    split; [now apply added_since_app|].
    split; [apply map_get_set_eq | intros k Hk; now apply map_get_set_neq].
Qed.

(** C2 (the code at the failing input). With two clients holding a
    session, two calls in a row for the same client start two
    subprocesses: the guard reads [client.ffmpegProcess], which the
    composite starter never sets.  The world [two_sessions] is the
    registry that [two_publishers] builds from the initial world. *)
Theorem C2_composite_started_twice pj :
  spawned (added_since two_sessions
             (exec (startHLSProcessing pj "a" ;; startHLSProcessing pj "a") two_sessions))
  = [8; 9]
  /\ spawned (trace (run pj two_publishers initial)) = [8; 9]
  /\ clients (run pj (firstn 6 two_publishers) initial) = clients two_sessions
  /\ ~ start_is_idempotent pj.
Proof.
  split; [|split; [reflexivity | split; [reflexivity|]]].
  { reflexivity. }
  assert (spawned (added_since two_sessions
             (exec (startHLSProcessing pj "a" ;; startHLSProcessing pj "a") two_sessions))
          = [8; 9]) as Hrun by reflexivity.
  intros H. specialize (H two_sessions "a"). cbv zeta in H.
  rewrite Hrun in H. simpl in H. lia.
Qed.

(** X16. The part of the idempotence that the code has: a client that owns a
    subprocess is left alone, and on the single-client path the second of
    two calls in a row finds the process stored by the first. *)
Lemma start_twice_single pj w clientId client :
  map_get clientId (clients w) = Some client ->
  List.length (active_entries (clients w)) < 2 ->
  let w' := exec (startHLSProcessing pj clientId ;; startHLSProcessing pj clientId) w in
  List.length (spawned (added_since w w')) <= 1.
Proof.
  intros Hc Hlt w'. subst w'. unfold exec, bind.
  destruct (ffmpegProcess client) as [p|] eqn:Hp.
  - rewrite (startHLSProcessing_owned pj _ _ _ _ Hc Hp).
    rewrite (startHLSProcessing_owned pj _ _ _ _ Hc Hp). simpl.
    unfold added_since. rewrite skipn_all. simpl. lia.
  - rewrite (startHLSProcessing_run pj _ _ _ Hc Hp).
    apply Nat.leb_gt in Hlt. rewrite Hlt.
    rewrite (createSingleClientHLSStream_run _ _ _ _ _ _ Hc).
    erewrite startHLSProcessing_owned;
      [|simpl; apply map_get_set_eq | reflexivity].
    simpl. erewrite added_since_app by reflexivity. simpl. lia.
Qed.

(** ** What a callback can do to the world *)

Lemma effect_refl w : effect w w.
Proof.
  constructor; [lia | constructor | auto |].
  exists []. split; [now rewrite app_nil_r | intros p []].
Qed.

(** Appending events other than signals keeps an effect. *)
Lemma effect_append w w1 es :
  effect w w1 -> killed es = [] -> effect w (append_trace es w1).
Proof.
  intros [Hn Hr Hp [added [Ht Hk]]] Hes.
  constructor; simpl; auto.
  exists (added ++ es). rewrite Ht, app_assoc. split; [reflexivity|].
  intros p. rewrite killed_app, Hes, app_nil_r. apply Hk.
Qed.

Lemma effect_trace_only w es : killed es = [] -> effect w (append_trace es w).
Proof. intros. apply effect_append; [apply effect_refl | assumption]. Qed.

Lemma pcs_update_keys pc f l : map fst (pcs_update pc f l) = map fst l.
Proof.
  unfold pcs_update. induction l as [|[q s] l IH]; simpl; [reflexivity|].
  rewrite IH. now destruct (Nat.eqb pc q).
Qed.

Lemma effect_initiate fromClientId w : effect w (snd (handleInitiateP2P fromClientId w)).
Proof.
  rewrite handleInitiateP2P_run. simpl.
  apply effect_trace_only, killed_notifications.
Qed.

Lemma effect_relay fromClientId message w :
  effect w (snd (relayP2PMessage fromClientId message w)).
Proof.
  unfold relayP2PMessage. munfold.
  destruct (get_prop message "payload") as [e|payload]; simpl; [apply effect_refl|].
  destruct (get_prop payload "toPeerID") as [e|target]; simpl; [apply effect_refl|].
  destruct (truthy target); simpl; [|apply effect_refl].
  destruct (clients_get target (clients w)) as [b|]; [|apply effect_refl].
  destruct (is_open (readyState (ws b))); [|apply effect_refl].
  now apply (effect_trace_only w [_]).
Qed.

Lemma effect_candidate ice clientId message w :
  effect w (snd (handleServerCandidate ice clientId message w)).
Proof.
  unfold handleServerCandidate, addIceCandidate. munfold.
  destruct (map_get clientId (clients w)) as [c|]; [|apply effect_refl].
  destruct (peerConnection c) as [pc|]; [|apply effect_refl].
  destruct (get_prop message "payload") as [e|payload]; simpl; [apply effect_refl|].
  destruct (get_prop payload "candidate") as [e|candidate]; simpl; [apply effect_refl|].
  destruct (truthy candidate); simpl; [|apply effect_refl].
  destruct (get_prop candidate "candidate") as [e|inner]; simpl;
    [now apply (effect_trace_only w [_])|].
  destruct ice as [e|]; simpl; [now apply (effect_trace_only w [_])|].
  constructor; simpl; [lia | constructor | |].
  - intros q. rewrite pcs_update_keys. auto.
  - exists []. split; [now rewrite app_nil_r | intros p []].
Qed.

Lemma effect_offer o clientId message w :
  effect w (snd (handleServerOffer o clientId message w)).
Proof.
  destruct (map_get clientId (clients w)) as [c|] eqn:Hc.
  2:{ unfold handleServerOffer. munfold. rewrite Hc. apply effect_refl. }
  destruct (get_prop message "payload") as [e|payload] eqn:Hp.
  { unfold handleServerOffer. munfold. rewrite Hc, Hp. apply effect_refl. }
  destruct (get_prop payload "sdp") as [e|sdp] eqn:Hs.
  { unfold handleServerOffer. munfold. rewrite Hc, Hp. simpl. rewrite Hs. apply effect_refl. }
  destruct (truthy sdp) eqn:Ht.
  2:{ unfold handleServerOffer. munfold. rewrite Hc, Hp. simpl. rewrite Hs. simpl.
      rewrite Ht. apply effect_refl. }
  destruct (handleServerOffer_run o clientId c message sdp w Hc) as [inner [_ ->]].
  { exists payload. auto. }
  cbv zeta. simpl.
  assert (registry_step (next w) (S (next w)) (clients w)
            (map_set clientId (with_peerConnection (next w) c) (clients w))) as Hreg.
  { apply RModify with (c := c); auto. }
  assert (forall (l : list (nat * PeerConnection)) q, map fst l = map fst (pcs w ++ [(next w, mkPC None None [] false)]) ->
            In q (map fst l) ->
            In q (map fst (pcs w)) \/ (q = next w /\ next w < S (next w))) as Hkeys.
  { intros l q ->. rewrite map_app, in_app_iff. simpl. intuition lia. }
  destruct (remote_result o) as [e|];
    [|destruct (answer_result o) as [e|]; [|destruct (local_result o) as [e|local]]];
    (constructor; simpl; [lia | exact Hreg | intros q; apply Hkeys; now rewrite ?pcs_update_keys |]);
    (eexists; split; [reflexivity | intros p []]).
Qed.

Lemma effect_dispatch ext clientId message w :
  effect w (snd (handleSignalingMessage ext clientId message w)).
Proof.
  unfold handleSignalingMessage, bind at 1, get_clients.
  destruct (map_get clientId (clients w)) as [c|]; [|apply effect_refl].
  unfold bind, lift.
  destruct (get_prop message "type") as [e|ty]; simpl; [apply effect_refl|].
  destruct ty; try apply effect_refl.
  destruct (String.eqb s "signal-initiate-p2p"); [apply effect_initiate|].
  destruct (String.eqb s "server-offer"); [apply effect_offer|].
  destruct (String.eqb s "server-candidate"); [apply effect_candidate|].
  destruct (String.eqb s "direct-offer" || String.eqb s "direct-answer"
            || String.eqb s "direct-candidate"); [apply effect_relay | apply effect_refl].
Qed.

Lemma effect_onMessage ext clientId data w :
  effect w (snd (onMessage ext clientId data w)).
Proof.
  unfold onMessage, try_catch, bind.
  destruct data as [v|]; simpl.
  - pose proof (effect_dispatch ext clientId v w) as H.
    destruct (handleSignalingMessage ext clientId v w) as [[[]|e] w1]; simpl in *; auto.
    now apply (effect_append w w1 [_]).
  - now apply (effect_trace_only w [_]).
Qed.

Lemma killed_disconnect_stored clientId client remaining m p :
  In (clientId, client) m ->
  In p (killed (disconnect_events clientId client remaining)) ->
  stored_process m p.
Proof.
  intros Hin. rewrite killed_disconnect_events.
  destruct (ffmpegProcess client) as [q|] eqn:E; simpl; [|tauto].
  intros [<-|[]]. now exists (clientId, client).
Qed.

Lemma effect_disconnect clientId w :
  effect w (snd (handleClientDisconnect clientId w)).
Proof.
  destruct (map_get clientId (clients w)) as [c|] eqn:Hc.
  - rewrite (handleClientDisconnect_run _ _ _ Hc). simpl.
    constructor; simpl; [lia | constructor | |].
    + intros q. unfold close_session.
      destruct (peerConnection c); rewrite ?pcs_update_keys; auto.
    + eexists. split; [reflexivity|].
      intros p. apply killed_disconnect_stored. now apply map_get_In.
  - unfold handleClientDisconnect, bind, get_clients. rewrite Hc. apply effect_refl.
Qed.

Lemma effect_socket_error clientId e w :
  effect w (snd ((emit (EvError ("WebSocket error for client " ++ clientId ++ ":") e) ;;
                  handleClientDisconnect clientId) w)).
Proof.
  unfold bind at 1. rewrite emit_run.
  pose proof (effect_disconnect clientId
                (append_trace [EvError ("WebSocket error for client " ++ clientId ++ ":") e] w))
    as [Hn Hr Hp [added [Ht Hk]]].
  constructor; auto.
  simpl in Ht. rewrite <- app_assoc in Ht.
  eexists. split; [exact Ht|]. simpl. exact Hk.
Qed.

Lemma effect_connection state clientId w :
  effect w (snd ((h <- fresh ;; onConnection (mkWebSocket h state) clientId) w)).
Proof.
  unfold onConnection, absent_id. munfold.
  assert (effect w (mkWorld (clients w) (pcs w) (S (next w))
                      (trace w ++ [EvWsClose (next w) 1008 "Client ID required"]))) as Hrefused.
  { constructor; simpl; [lia | constructor | auto |].
    eexists. split; [reflexivity | intros p []]. }
  destruct clientId as [cid|]; simpl; [|exact Hrefused].
  destruct (String.eqb_spec cid "") as [->|Hne]; simpl; [exact Hrefused|].
  constructor; simpl; [lia | apply RInsert; [assumption | lia] | auto |].
  eexists. split; [reflexivity | intros p []].
Qed.

Lemma effect_socket_state clientId state w :
  effect w (snd (modify_client clientId
                   (fun c => with_ws (mkWebSocket (handle (ws c)) state) c) w)).
Proof.
  munfold. destruct (map_get clientId (clients w)) as [c|] eqn:Hc; simpl;
    [|apply effect_refl].
  constructor; simpl; [lia | apply RModify with (c := c); auto | auto |].
  exists []. split; [now rewrite app_nil_r | intros p []].
Qed.

Lemma effect_start pj clientId w :
  effect w (snd (startHLSProcessing pj clientId w)).
Proof.
  destruct (map_get clientId (clients w)) as [c|] eqn:Hc.
  2:{ rewrite startHLSProcessing_unregistered by assumption. apply effect_refl. }
  destruct (ffmpegProcess c) as [p|] eqn:Hp.
  { erewrite startHLSProcessing_owned by eassumption. apply effect_refl. }
  rewrite (startHLSProcessing_run pj _ _ _ Hc Hp).
  destruct (Nat.leb 2 (List.length (active_entries (clients w)))).
  - rewrite createCompositeHLSStream_run. simpl.
    destruct (active_entries (clients w)) as [|[id1 c1] [|[id2 c2] rest]];
      try apply effect_refl.
    constructor; simpl; [lia | constructor | auto |].
    eexists. split; [reflexivity | intros p []].
  - rewrite (createSingleClientHLSStream_run _ _ _ _ _ _ Hc). simpl.
    constructor; simpl; [lia | | auto |].
    + apply RModify with (c := c); auto.
    + eexists. split; [reflexivity | intros p []].
Qed.

Lemma effect_track pj clientId kind dirExists w :
  effect w (snd (handleIncomingTrack pj clientId kind dirExists w)).
Proof.
  unfold handleIncomingTrack, setupVideoProcessing, setupAudioProcessing, createWriteStream.
  munfold.
  destruct (map_get clientId (clients w)) as [c|] eqn:Hc; [|apply effect_refl].
  destruct dirExists; simpl;
    (destruct (String.eqb kind "video");
     [|destruct (String.eqb kind "audio")]); simpl; rewrite ?Hc; simpl; rewrite ?Hc; simpl;
    try apply effect_refl;
    try (now apply (effect_trace_only w [_]));
    (constructor; simpl; [lia | apply RModify with (c := c); auto | auto |]);
    rewrite <- ?app_assoc; (eexists; split; [reflexivity | intros p []]).
Qed.

Lemma effect_prefix w w' es :
  killed es = [] -> effect (append_trace es w) w' -> effect w w'.
Proof.
  intros Hes [Hn Hr Hp [added [Ht Hk]]]. constructor; auto.
  simpl in Ht. rewrite <- app_assoc in Ht.
  exists (es ++ added). split; [exact Ht|].
  intros p. rewrite killed_app, Hes. apply Hk.
Qed.

Lemma effect_ice socket candidate w : effect w (snd (onIceCandidate socket candidate w)).
Proof.
  unfold onIceCandidate.
  destruct (truthy candidate && is_open (readyState socket));
    [now apply (effect_trace_only w [_]) | apply effect_refl].
Qed.

Lemma effect_step pj i w : effect w (step pj i w).
Proof.
  unfold step, exec. destruct i; simpl.
  - apply effect_connection.
  - apply effect_onMessage.
  - apply effect_disconnect.
  - apply effect_socket_error.
  - unfold bind at 1. rewrite emit_run.
    apply (effect_prefix w _ [EvLog (track_text kind clientId)]); [reflexivity|].
    apply effect_track.
  - apply effect_start.
  - apply effect_socket_state.
  - apply effect_ice.
Qed.

(** ** The invariant holds in every reachable world *)

Section MapSetFacts.
Context {V : Type}.
Implicit Types (m : list (string * V)) (k : string) (v : V).

Lemma map_set_In x k v m : In x (map_set k v m) -> x = (k, v) \/ In x m.
Proof.
  induction m as [|[k' v'] m IH]; simpl.
  - intros [<-|[]]. now left.
  - destruct (String.eqb_spec k k') as [->|Hne]; simpl.
    + intros [<-|Hin]; auto.
    + intros [<-|Hin]; auto. destruct (IH Hin); auto.
Qed.

Lemma map_set_same_image {B} (f : string * V -> B) k v v0 m :
  map_get k m = Some v0 -> f (k, v) = f (k, v0) ->
  map f (map_set k v m) = map f m.
Proof.
  intros Hget Hf. induction m as [|[k' v'] m IH]; simpl in *; [discriminate|].
  destruct (String.eqb_spec k k') as [->|Hne]; simpl.
  - injection Hget as ->. now rewrite Hf.
  - now rewrite IH.
Qed.

Lemma NoDup_map_set_fresh {B} (f : string * V -> B) k v m :
  NoDup (map f m) -> ~ In (f (k, v)) (map f m) -> NoDup (map f (map_set k v m)).
Proof.
  induction m as [|[k' v'] m IH]; simpl; intros Hnd Hfresh.
  - constructor; [tauto | constructor].
  - inversion Hnd as [|? ? Hnotin Hnd']; subst.
    destruct (String.eqb_spec k k') as [->|Hne]; simpl.
    + constructor; [tauto | assumption].
    + constructor; [|apply IH; tauto].
      rewrite in_map_iff. intros [x [Hx Hin]].
      apply map_set_In in Hin as [->|Hin].
      * apply Hfresh. now left.
      * apply Hnotin. rewrite <- Hx. now apply in_map.
Qed.

Lemma NoDup_keys_map_set k v m : NoDup (map_keys m) -> NoDup (map_keys (map_set k v m)).
Proof.
  intros Hnd. destruct (map_get k m) as [v0|] eqn:E.
  - now rewrite (map_keys_set_present _ _ _ _ E).
  - rewrite (map_keys_set_absent _ _ _ E).
    apply NoDup_app; [assumption | constructor; [tauto | constructor] |].
    intros x Hx [<-|[]]. now apply map_get_None_keys in E.
Qed.

Lemma Forall_map_set (P : string * V -> Prop) k v m :
  Forall P m -> P (k, v) -> Forall P (map_set k v m).
Proof.
  intros Hall Hp. rewrite Forall_forall in *.
  intros x Hin. apply map_set_In in Hin as [->|Hin]; auto.
Qed.

End MapSetFacts.

Lemma client_ok_mono n n' kc : n <= n' -> client_ok n kc -> client_ok n' kc.
Proof.
  intros Hle (H1 & H2 & H3 & H4). repeat split; auto; try lia.
  intros p Hp. specialize (H4 p Hp). lia.
Qed.

Lemma wf_effect w w' : wf w -> effect w w' -> wf w'.
Proof.
  intros [Hk Hs Hc Hp] [Hn Hr Hq _].
  assert (Forall (client_ok (next w')) (clients w)) as Hc'.
  { eapply Forall_impl; [|exact Hc]. intros kc. now apply client_ok_mono. }
  assert (Forall (fun qs => fst qs < next w') (pcs w')) as Hp'.
  { rewrite Forall_forall in *. intros qs Hin.
    destruct (Hq (fst qs) (in_map fst _ _ Hin)) as [Hold|[-> Hlt]]; [|assumption].
    apply in_map_iff in Hold as [qs0 [<- Hin0]]. specialize (Hp _ Hin0). lia. }
  inversion Hr as [Heq | k c c' Hget Hid Hws Hproc Heq | k state Hne Hlt Heq | k Heq];
    constructor; auto; rewrite <- Heq; auto.
  - (* field assignment *)
    now rewrite (map_keys_set_present _ _ _ _ Hget).
  - rewrite (map_set_same_image socket_of _ _ _ _ Hget); [assumption|].
    unfold socket_of; simpl. exact Hws.
  - apply Forall_map_set; [assumption|].
    pose proof (proj1 (Forall_forall _ _) Hc _ (map_get_In _ _ _ Hget)) as (H1 & H2 & H3 & H4).
    simpl in *. repeat split; simpl; auto; try congruence.
    + unfold socket_of in *; simpl in *. rewrite Hws. lia.
    + intros p Hp0. destruct Hproc as [Hsame|[Hnew Hlt]].
      * rewrite Hsame in Hp0. specialize (H4 _ Hp0). lia.
      * rewrite Hnew in Hp0. injection Hp0 as <-. exact Hlt.
  - (* a new client *)
    now apply NoDup_keys_map_set.
  - apply NoDup_map_set_fresh; [assumption|].
    unfold socket_of at 1; simpl. rewrite in_map_iff. intros [kc [Hx Hin]].
    pose proof (proj1 (Forall_forall _ _) Hc _ Hin) as (_ & _ & H3 & _). lia.
  - apply Forall_map_set; [assumption|].
    repeat split; simpl; auto. discriminate.
  - (* delete *)
    unfold map_keys, map_delete. now apply NoDup_image_filter.
  - unfold map_delete. now apply NoDup_image_filter.
  - unfold map_delete. rewrite Forall_forall in *. intros x Hin.
    apply filter_In in Hin. now apply Hc'.
Qed.

Lemma wf_initial : wf initial.
Proof. constructor; simpl; constructor. Qed.

Lemma wf_step pj i w : wf w -> wf (step pj i w).
Proof. intros Hwf. exact (wf_effect _ _ Hwf (effect_step pj i w)). Qed.

Lemma wf_run pj inputs w : wf w -> wf (run pj inputs w).
Proof.
  revert w. induction inputs as [|i inputs IH]; intros w Hwf; simpl; [assumption|].
  apply IH. now apply wf_step.
Qed.

(** X1. In every world the server can reach, the keys of the registry
    are distinct, non-empty and equal to the [id] of their entry, every
    entry has a socket of its own, the socket of every entry and the
    subprocess it stores, if any, are below the allocation counter, and
    so is every key of the store of peer connections. *)
Theorem reachable_wf pj w : reachable pj w -> wf w.
Proof. intros [inputs ->]. apply wf_run, wf_initial. Qed.

(** ** A process that no client stores is never signalled *)

Lemma unstored_effect p w w' :
  p < next w -> ~ stored_process (clients w) p -> effect w w' ->
  p < next w' /\ ~ stored_process (clients w') p /\
  exists added, trace w' = trace w ++ added /\ ~ In p (killed added).
Proof.
  intros Hlt Hun [Hn Hr _ [added [Ht Hk]]].
  split; [lia|]. split.
  - intros [kc [Hin Hp]]. apply Hun.
    inversion Hr as [Heq | k c c' Hget Hid Hws Hproc Heq | k state Hne Hlt' Heq | k Heq];
      rewrite <- Heq in Hin.
    + now exists kc.
    + apply map_set_In in Hin as [->|Hin]; [|now exists kc].
      simpl in Hp. destruct Hproc as [Hsame|[Hnew _]].
      * exists (k, c). split; [now apply map_get_In | simpl; congruence].
      * rewrite Hnew in Hp. injection Hp as <-. lia.
    + apply map_set_In in Hin as [->|Hin]; [discriminate | now exists kc].
    + apply map_delete_In in Hin. exists kc. tauto.
  - exists added. split; [assumption|]. intros Hin. apply Hun. now apply Hk.
Qed.

Lemma unstored_run pj inputs :
  forall w p,
    p < next w -> ~ stored_process (clients w) p ->
    exists added, trace (run pj inputs w) = trace w ++ added /\ ~ In p (killed added).
Proof.
  induction inputs as [|i inputs IH]; intros w p Hlt Hun; simpl.
  - exists []. split; [now rewrite app_nil_r | tauto].
  - destruct (unstored_effect p w (step pj i w) Hlt Hun (effect_step pj i w))
      as (Hlt' & Hun' & added1 & Ht1 & Hk1).
    destruct (IH (step pj i w) p Hlt' Hun') as (added2 & Ht2 & Hk2).
    exists (added1 ++ added2). rewrite Ht2, Ht1, app_assoc. split; [reflexivity|].
    rewrite killed_app, in_app_iff. tauto.
Qed.

Lemma wf_unstored_next w : wf w -> ~ stored_process (clients w) (next w).
Proof.
  intros Hwf [kc [Hin Hp]].
  pose proof (proj1 (Forall_forall _ _) (wf_clients _ Hwf) _ Hin) as (_ & _ & _ & H4).
  specialize (H4 _ Hp). lia.
Qed.

(** C10. The composite starter leaves the registry as it was, so the
    process it spawns is stored on no client.  Hence no disconnect, and
    indeed no later sequence of callbacks, ever signals that process: a
    disconnect signals the process stored on the departing client and
    nothing else.  (With two clients holding a session the starter does
    spawn a process.) *)
Theorem C10_composite_process_untracked pj w :
  wf w ->
  let w' := exec (createCompositeHLSStream pj) w in
  clients w' = clients w /\
  (2 <= List.length (active_entries (clients w)) ->
     spawned (added_since w w') = [next w]) /\
  (forall p, In p (spawned (added_since w w')) ->
     ~ stored_process (clients w') p /\
     (forall clientId,
        ~ In p (killed (added_since w' (exec (handleClientDisconnect clientId) w')))) /\
     (forall inputs, ~ In p (killed (added_since w' (run pj inputs w'))))) /\
  (forall clientId client,
     map_get clientId (clients w') = Some client ->
     killed (added_since w' (exec (handleClientDisconnect clientId) w')) =
     match ffmpegProcess client with Some q => [q] | None => [] end).
Proof.
  intros Hwf w'. subst w'. unfold exec. rewrite createCompositeHLSStream_run. simpl.
  assert (forall w1 clientId client,
            map_get clientId (clients w1) = Some client ->
            killed (added_since w1 (snd (handleClientDisconnect clientId w1))) =
            match ffmpegProcess client with Some q => [q] | None => [] end) as Hkill.
  { intros w1 clientId client Hc. rewrite (handleClientDisconnect_run _ _ _ Hc). simpl.
    erewrite added_since_app by reflexivity. apply killed_disconnect_events. }
  destruct (active_entries (clients w)) as [|[id1 c1] [|[id2 c2] rest]] eqn:Hact; simpl.
  1,2: (split; [reflexivity|]; split; [lia|]; split; [|now apply Hkill];
        unfold added_since; rewrite skipn_all; intros p []).
  split; [reflexivity|].
  match goal with
  | |- context [trace w ++ ?es] =>
      rewrite (added_since_app w
                 (mkWorld (clients w) (pcs w) (S (next w)) (trace w ++ es)) es)
        by reflexivity
  end.
  simpl.
  split; [reflexivity|].
  split; [|intros clientId client Hc;
           exact (Hkill (mkWorld (clients w) (pcs w) (S (next w)) _) clientId client Hc)].
  intros p [<-|[]].
  set (w' := mkWorld _ _ _ _).
  assert (next w < next w') as Hlt by (simpl; lia).
  assert (~ stored_process (clients w') (next w)) as Hun by exact (wf_unstored_next w Hwf).
  split; [assumption|]. split.
  - intros clientId.
    destruct (unstored_effect _ _ _ Hlt Hun (effect_disconnect clientId w'))
      as (_ & _ & added & Ht & Hk).
    now rewrite (added_since_app _ _ _ Ht).
  - intros inputs.
    destruct (unstored_run pj inputs w' (next w) Hlt Hun) as (added & Ht & Hk).
    now rewrite (added_since_app _ _ _ Ht).
Qed.

(** ** The theorems at the sample worlds *)

Ltac nodup_concrete :=
  repeat (apply NoDup_cons; [simpl; intuition (try discriminate)|]); apply NoDup_nil.

Ltac client_ok_concrete :=
  unfold client_ok, socket_of; simpl; repeat split;
  try discriminate; try lia;
  intros p E; try discriminate; injection E as <-; lia.

Ltac wf_concrete :=
  split; simpl;
  [ nodup_concrete
  | nodup_concrete
  | repeat (apply Forall_cons; [client_ok_concrete|]); apply Forall_nil
  | repeat (apply Forall_cons; [simpl; lia|]); apply Forall_nil ].

Example relay_stamps_sender :
  relay_message "a" (direct_offer "b" "mallory") = direct_offer "b" "a".
Proof. reflexivity. Qed.

Lemma C1_witness :
  wf one_negotiated /\
  map_get "p1" (clients (exec (onConnection (mkWebSocket 2 OPEN) (Some "p1")) one_negotiated))
  = Some (new_client "p1" (mkWebSocket 2 OPEN)).
Proof.
  assert (wf one_negotiated) as Hwf by wf_concrete.
  split; [exact Hwf|].
  exact (proj1 (proj2 (C1_duplicate_id_replaces_entry one_negotiated (mkWebSocket 2 OPEN)
                         "p1" _ Hwf eq_refl))).
Defined.

Lemma C3_witness :
  added_since spectator_first (exec (startHLSProcessing join_slash "x") spectator_first)
  = [EvSpawn 5 "ffmpeg"
       ["-re"; "-i"; "./output/a/video.h264";
        "-i"; "./output/b/video.h264";
        "-i"; "./output/a/audio.ogg";
        "-filter_complex"; "[0:v][1:v]hstack=inputs=2[v]";
        "-map"; "[v]"; "-map"; "2:a";
        "-c:v"; "libx264"; "-preset"; "ultrafast"; "-tune"; "zerolatency";
        "-c:a"; "aac"; "-b:a"; "128k";
        "-f"; "hls"; "-hls_time"; "2"; "-hls_list_size"; "10";
        "-hls_flags"; "delete_segments"; "-hls_allow_cache"; "0";
        "./hls/playlist.m3u8"];
     EvLog "Started composite HLS stream processing"].
Proof.
  destruct (C3_decision_rule join_slash spectator_first "x" _ eq_refl eq_refl)
    as (_ & Hcomposite & _).
  destruct (Hcomposite (le_n 2)) as (id1 & c1 & id2 & c2 & rest & Hfirst & _ & Hadded & _).
  injection Hfirst as <- <- <- <- <-.
  exact Hadded.
Defined.

Lemma C4_witness :
  wf one_negotiated /\
  map_get "p1"
    (clients (exec (handleServerOffer (negotiation (all_resolve "answer2")) "p1"
                      (offer_message "v=0")) one_negotiated))
  = Some (mkClient "p1" (mkWebSocket 0 OPEN) (Some 2) [] None).
Proof.
  assert (wf one_negotiated) as Hwf by wf_concrete.
  split; [exact Hwf|].
  refine (proj1 (proj2 (C4_second_offer_replaces_session
                          (negotiation (all_resolve "answer2")) one_negotiated "p1" _
                          (offer_message "v=0")
                          (JObj [("type", JStr "offer"); ("sdp", JStr "v=0")])
                          Hwf eq_refl eq_refl _))).
  exists (JObj [("sdp", JObj [("type", JStr "offer"); ("sdp", JStr "v=0")])]).
  repeat split.
Defined.

Lemma C5_witness :
  wf one_fresh /\
  added_since one_fresh
    (exec (handleServerOffer (negotiation remote_rejects) "p1" (offer_message "garbage"))
       one_fresh)
  = [EvError (offer_error_text "p1") (LibError "setRemoteDescription")].
Proof.
  assert (wf one_fresh) as Hwf by wf_concrete.
  split; [exact Hwf|].
  refine (proj1 (proj2 (proj2 (C5_failed_offer_logged_and_contained remote_rejects
                          (negotiation remote_rejects) one_fresh "p1" _
                          (offer_message "garbage")
                          (JObj [("type", JStr "offer"); ("sdp", JStr "garbage")])
                          (LibError "setRemoteDescription")
                          Hwf eq_refl _ (or_introl eq_refl))))).
  exists (JObj [("sdp", JObj [("type", JStr "offer"); ("sdp", JStr "garbage")])]).
  repeat split.
Defined.

Lemma C6_witness :
  wf three_clients /\
  exec (handleSignalingMessage (all_resolve "x") "a" (direct_offer "b" "mallory")) three_clients
  = append_trace [EvWsSend 1 (direct_offer "b" "a")] three_clients.
Proof.
  assert (wf three_clients) as Hwf by wf_concrete.
  split; [exact Hwf|].
  destruct (C6_direct_relay (all_resolve "x") three_clients "a" _
              (direct_offer "b" "mallory") "direct-offer" _ "b"
              Hwf eq_refl eq_refl (or_introl eq_refl) eq_refl eq_refl)
    as (_ & Hforward & _).
  exact (Hforward _ eq_refl eq_refl).
Defined.

Lemma C7_witness :
  wf three_clients /\
  let added :=
    added_since three_clients
      (exec (handleSignalingMessage (all_resolve "x") "a" discovery_request) three_clients) in
  sends_to 0 added = [] /\
  sends_to 1 added
  = [JObj [("type", JStr "signal-initiate-p2p"); ("payload", JObj [("fromPeerID", JStr "a")])]] /\
  sends_to 2 added = [].
Proof.
  assert (wf three_clients) as Hwf by wf_concrete.
  split; [exact Hwf|].
  destruct (C7_discovery_broadcast (all_resolve "x") three_clients "a" _ discovery_request
              Hwf eq_refl eq_refl) as (_ & _ & Hothers & Hself & _).
  split; [exact Hself|]. split.
  - exact (Hothers "b" (mkClient "b" (mkWebSocket 1 OPEN) None [] None)
             (or_intror (or_introl eq_refl))).
  - exact (Hothers "c" (mkClient "c" (mkWebSocket 2 CLOSING) None [] None)
             (or_intror (or_intror (or_introl eq_refl)))).
Defined.

Lemma C8_witness :
  wf three_clients /\
  killed (added_since three_clients (exec (handleClientDisconnect "a") three_clients)) = [7] /\
  sends_to 1 (added_since three_clients (exec (handleClientDisconnect "a") three_clients))
  = [JObj [("type", JStr "peer-disconnected"); ("payload", JObj [("clientId", JStr "a")])]].
Proof.
  assert (wf three_clients) as Hwf by wf_concrete.
  split; [exact Hwf|].
  destruct (C8_disconnect_cleanup three_clients "a" _ Hwf eq_refl)
    as (_ & _ & _ & Hkill & _ & _ & Hsend).
  split.
  - exact (proj2 (Hkill 7 eq_refl)).
  - exact (Hsend "b" (mkClient "b" (mkWebSocket 1 OPEN) None [] None) (or_introl eq_refl)).
Defined.


Lemma C10_witness :
  wf two_sessions /\
  spawned (added_since two_sessions (exec (createCompositeHLSStream join_slash) two_sessions))
  = [8] /\
  ~ In 8 (killed (added_since
                    (exec (createCompositeHLSStream join_slash) two_sessions)
                    (run join_slash [Close "a"; Close "b"]
                       (exec (createCompositeHLSStream join_slash) two_sessions)))).
Proof.
  assert (wf two_sessions) as Hwf by wf_concrete.
  split; [exact Hwf|].
  destruct (C10_composite_process_untracked join_slash two_sessions Hwf)
    as (_ & Hspawn & Hnever & _).
  split; [exact (Hspawn (le_n 2))|].
  exact (proj2 (proj2 (Hnever 8 (or_introl eq_refl))) [Close "a"; Close "b"]).
Defined.

(** * Further properties of the handlers *)

(** ** Connections that come and go *)

Lemma map_delete_set_fresh {V} k (v : V) m :
  map_get k m = None -> map_delete k (map_set k v m) = m.
Proof.
  unfold map_delete. induction m as [|[k' v'] m IH]; simpl.
  - now rewrite String.eqb_refl.
  - destruct (String.eqb k k') eqn:E; [discriminate|].
    intros H. simpl. rewrite E. simpl. now rewrite IH.
Qed.

Lemma handleClientDisconnect_unregistered clientId w :
  map_get clientId (clients w) = None ->
  handleClientDisconnect clientId w = (Normal tt, w).
Proof.
  intros Hc. unfold handleClientDisconnect, bind, get_clients. now rewrite Hc.
Qed.

Lemma onConnection_accepted socket clientId w :
  clientId <> "" ->
  onConnection socket (Some clientId) w =
  (Normal tt,
   mkWorld (map_set clientId (new_client clientId socket) (clients w)) (pcs w) (next w)
     (trace w ++ [EvLog ("Client " ++ clientId ++ " connected")])).
Proof.
  intros Hne. apply String.eqb_neq in Hne.
  unfold onConnection, absent_id. rewrite Hne. reflexivity.
Qed.

(** X2. A connection that carries no client id, or an empty one, is closed
    with code 1008 and changes nothing else: no entry is made and nothing
    is logged. *)
Theorem connection_without_id_refused socket clientId w :
  absent_id clientId = true ->
  onConnection socket clientId w =
  (Normal tt, append_trace [EvWsClose (handle socket) 1008 "Client ID required"] w).
Proof.
  intros Habsent. unfold onConnection. destruct clientId as [cid|]; [|reflexivity].
  now rewrite Habsent.
Qed.

Lemma connection_without_id_refused_witness :
  clients (exec (onConnection (mkWebSocket 8 OPEN) (Some "")) three_clients)
  = clients three_clients.
Proof.
  unfold exec.
  now rewrite (connection_without_id_refused (mkWebSocket 8 OPEN) (Some "") three_clients eq_refl).
Defined.

(** X3. A client that connects under an id that is not in use and then
    disconnects leaves the registry and the sessions exactly as they
    were; the others with an open socket are told that it left. *)
Theorem connect_disconnect_round_trip socket clientId w :
  clientId <> "" ->
  map_get clientId (clients w) = None ->
  let w' := exec (onConnection socket (Some clientId) ;; handleClientDisconnect clientId) w in
  clients w' = clients w /\
  pcs w' = pcs w /\
  added_since w w' =
    [EvLog ("Client " ++ clientId ++ " connected"); EvLog (disconnect_text clientId)]
    ++ notifications socket_open (peer_disconnected_message clientId) (clients w).
Proof.
  intros Hne Hfresh w'. subst w'. unfold exec, bind.
  rewrite (onConnection_accepted _ _ _ Hne).
  erewrite handleClientDisconnect_run by (simpl; apply map_get_set_eq).
  simpl. rewrite (map_delete_set_fresh _ _ _ Hfresh).
  split; [reflexivity|]. split; [reflexivity|].
  apply added_since_app. simpl. unfold disconnect_events, kill_events. simpl.
  now rewrite <- app_assoc.
Qed.

Lemma connect_disconnect_round_trip_witness :
  clients (exec (onConnection (mkWebSocket 8 OPEN) (Some "d") ;; handleClientDisconnect "d")
             three_clients)
  = clients three_clients.
Proof.
  refine (proj1 (connect_disconnect_round_trip (mkWebSocket 8 OPEN) "d" three_clients _ eq_refl)).
  discriminate.
Defined.

(** X4. The socket library reports a failure as [error] followed by
    [close], so the disconnect handler runs twice: the second run finds
    the client gone and does nothing at all. *)
Theorem disconnect_twice_is_once pj clientId e w :
  exec (handleClientDisconnect clientId ;; handleClientDisconnect clientId) w
  = exec (handleClientDisconnect clientId) w /\
  run pj [SocketError clientId e; Close clientId] w = step pj (SocketError clientId e) w.
Proof.
  assert (forall w0, exec (handleClientDisconnect clientId)
                       (exec (handleClientDisconnect clientId) w0)
                     = exec (handleClientDisconnect clientId) w0) as Hagain.
  { intros w0. unfold exec at 1.
    rewrite handleClientDisconnect_unregistered; [reflexivity|].
    unfold exec. destruct (map_get clientId (clients w0)) as [c|] eqn:Hc.
    - rewrite (handleClientDisconnect_run _ _ _ Hc). simpl. apply map_get_delete_eq.
    - now rewrite (handleClientDisconnect_unregistered _ _ Hc). }
  split.
  - rewrite <- (Hagain w). unfold exec, bind.
    destruct (map_get clientId (clients w)) as [c|] eqn:Hc.
    + now rewrite (handleClientDisconnect_run _ _ _ Hc).
    + now rewrite (handleClientDisconnect_unregistered _ _ Hc).
  - simpl. unfold step, exec. simpl. unfold bind. rewrite emit_run.
    apply Hagain.
Qed.

(** ** Callbacks that arrive late, and messages the dispatcher passes over *)




(** X6. A message whose [type] is none of the six the dispatcher knows, or
    is not a string at all, is passed over: nothing is sent, logged or
    changed, whoever sent it and whatever else it holds. *)
Theorem unknown_kind_ignored ext clientId message ty w :
  get_prop message "type" = inr ty ->
  (forall t, ty = JStr t -> ~ In t known_kinds) ->
  handleSignalingMessage ext clientId message w = (Normal tt, w) /\
  onMessage ext clientId (Some message) w = (Normal tt, w).
Proof.
  intros Hty Hunknown.
  assert (handleSignalingMessage ext clientId message w = (Normal tt, w)) as Hrun.
  { unfold handleSignalingMessage, bind at 1, get_clients.
    destruct (map_get clientId (clients w)); [|reflexivity].
    unfold bind, lift. rewrite Hty. simpl.
    destruct ty; try reflexivity.
    specialize (Hunknown s eq_refl). unfold known_kinds in Hunknown. simpl in Hunknown.
    repeat match goal with
    | |- context [String.eqb s ?k] =>
        destruct (String.eqb_spec s k); [exfalso; apply Hunknown; subst; intuition|]
    end.
    reflexivity. }
  split; [exact Hrun|].
  unfold onMessage, try_catch, bind at 1. simpl. now rewrite Hrun.
Qed.

Lemma unknown_kind_ignored_witness :
  exec (onMessage (all_resolve "x") "a"
          (Some (JObj [("type", JStr "chat"); ("payload", JObj [("text", JStr "hi")])])))
    three_clients
  = three_clients.
Proof.
  unfold exec.
  rewrite (proj2 (unknown_kind_ignored (all_resolve "x") "a"
                    (JObj [("type", JStr "chat"); ("payload", JObj [("text", JStr "hi")])])
                    (JStr "chat") three_clients eq_refl
                    ltac:(intros t [= <-]; simpl; intuition discriminate))).
  reflexivity.
Defined.

(** X7. Text that does not parse is logged once by the listener and changes
    nothing else.  So is, for a registered sender, a server offer or a
    direct message that has no payload: reading a member of the missing
    payload throws, and the listener logs the exception. *)
Theorem malformed_message_logged ext clientId client message t w :
  map_get clientId (clients w) = Some client ->
  get_prop message "type" = inr (JStr t) ->
  no_payload message ->
  onMessage ext clientId None w
  = (Normal tt, append_trace [EvError "Error handling message:" SyntaxError] w) /\
  (t = "server-offer" ->
   onMessage ext clientId (Some message) w
   = (Normal tt, append_trace [EvError "Error handling message:" (TypeError "sdp")] w)) /\
  (In t ["direct-offer"; "direct-answer"; "direct-candidate"] ->
   onMessage ext clientId (Some message) w
   = (Normal tt, append_trace [EvError "Error handling message:" (TypeError "toPeerID")] w)).
Proof.
  intros Hc Hty Hnone. split; [reflexivity|]. split.
  - intros ->. unfold onMessage, try_catch, bind at 1. simpl.
    unfold handleSignalingMessage, bind at 1, get_clients. rewrite Hc.
    unfold bind at 1. rewrite Hty. simpl.
    unfold handleServerOffer, bind at 1, get_clients. rewrite Hc.
    unfold bind at 1. destruct Hnone as [-> | ->]; reflexivity.
  - intros Hin. unfold onMessage, try_catch, bind at 1. simpl.
    rewrite (dispatch_direct _ _ _ _ _ _ Hc Hty Hin).
    unfold relayP2PMessage, bind at 1. destruct Hnone as [-> | ->]; reflexivity.
Qed.

Lemma malformed_message_logged_witness :
  errors_logged
    (added_since three_clients
       (exec (onMessage (all_resolve "x") "a" (Some (JObj [("type", JStr "direct-offer")])))
          three_clients))
  = [TypeError "toPeerID"].
Proof.
  unfold exec.
  rewrite (proj2 (proj2 (malformed_message_logged (all_resolve "x") "a" _
                           (JObj [("type", JStr "direct-offer")]) "direct-offer"
                           three_clients eq_refl eq_refl (or_introl eq_refl)))
             (or_introl eq_refl)).
  reflexivity.
Defined.

(** ** Offers and candidates *)

(** X8. A server offer whose payload has no description (a missing, [null],
    empty or otherwise falsy [sdp]) is dropped before anything is
    created: no peer connection, no answer, no log. *)
Theorem offer_without_description_ignored o clientId message payload sdp w :
  get_prop message "payload" = inr payload ->
  get_prop payload "sdp" = inr sdp ->
  truthy sdp = false ->
  handleServerOffer o clientId message w = (Normal tt, w).
Proof.
  intros Hp Hs Ht. unfold handleServerOffer, bind at 1, get_clients.
  destruct (map_get clientId (clients w)); [|reflexivity].
  unfold bind, lift. rewrite Hp. simpl. rewrite Hs. simpl. now rewrite Ht.
Qed.

Lemma offer_without_description_ignored_witness :
  exec (handleServerOffer (negotiation (all_resolve "x")) "p1"
          (JObj [("type", JStr "server-offer"); ("payload", JObj [("sdp", JStr "")])]))
    one_fresh
  = one_fresh.
Proof.
  unfold exec.
  now rewrite (offer_without_description_ignored (negotiation (all_resolve "x")) "p1"
                 (JObj [("type", JStr "server-offer"); ("payload", JObj [("sdp", JStr "")])])
                 (JObj [("sdp", JStr "")]) (JStr "") one_fresh eq_refl eq_refl eq_refl).
Defined.

(** X9. A candidate from a client that holds no peer connection (none was
    ever offered, or the id is unknown) is dropped without a trace: no
    error is logged, whatever the message holds. *)
Theorem candidate_without_session_ignored ice clientId message w :
  (forall client, map_get clientId (clients w) = Some client -> peerConnection client = None) ->
  handleServerCandidate ice clientId message w = (Normal tt, w).
Proof.
  intros Hnone. unfold handleServerCandidate, bind at 1, get_clients.
  destruct (map_get clientId (clients w)) as [c|]; [|reflexivity].
  now rewrite (Hnone c eq_refl).
Qed.

Lemma candidate_without_session_ignored_witness :
  exec (handleServerCandidate None "p1" (candidate_message "candidate:1")) one_fresh = one_fresh.
Proof.
  unfold exec.
  rewrite (candidate_without_session_ignored None "p1" (candidate_message "candidate:1") one_fresh).
  - reflexivity.
  - intros client [= <-]. reflexivity.
Defined.

(** X10. A candidate from a client that holds a peer connection is handed to
    that peer connection and to no other; when the library rejects it
    the error is logged and the peer connections are as before.  Either
    way the registry is untouched and nothing is sent. *)
Theorem candidate_applied_or_logged ice clientId client pc message inner w :
  map_get clientId (clients w) = Some client ->
  peerConnection client = Some pc ->
  carries_candidate message inner ->
  handleServerCandidate ice clientId message w =
  (Normal tt,
   match ice with
   | None => mkWorld (clients w) (pcs_update pc (add_candidate inner) (pcs w)) (next w) (trace w)
   | Some e =>
       append_trace [EvError ("Error adding ICE candidate for " ++ clientId ++ ":") e] w
   end).
Proof.
  intros Hc Hpc (payload & candidate & Hp & Hcand & Ht & Hinner).
  unfold handleServerCandidate, bind at 1, get_clients. rewrite Hc, Hpc.
  unfold addIceCandidate. munfold. rewrite Hp. simpl. rewrite Hcand. simpl.
  rewrite Ht. simpl. rewrite Hinner. simpl. destruct ice; reflexivity.
Qed.

Lemma candidate_applied_or_logged_witness :
  session_state
    (exec (handleServerCandidate None "p1" (candidate_message "candidate:1")) one_negotiated)
    (mkClient "p1" (mkWebSocket 0 OPEN) (Some 1) [] None)
  = CandidatesExchanging.
Proof.
  unfold exec.
  rewrite (candidate_applied_or_logged None "p1" _ 1 (candidate_message "candidate:1")
             (JStr "candidate:1") one_negotiated eq_refl eq_refl).
  - reflexivity.
  - exists (JObj [("candidate", JObj [("candidate", JStr "candidate:1")])]),
           (JObj [("candidate", JStr "candidate:1")]).
    repeat split.
Defined.

(** ** Disconnect and the session *)

(** X11. The disconnect handler closes the peer connection stored on the
    departing client and leaves every other peer connection as it is. *)
Theorem disconnect_closes_session clientId client pc s w :
  map_get clientId (clients w) = Some client ->
  peerConnection client = Some pc ->
  pcs_get pc (pcs w) = Some s ->
  let w' := exec (handleClientDisconnect clientId) w in
  pcs_get pc (pcs w')
  = Some (mkPC (remoteDescription s) (localDescription s) (remoteCandidates s) true) /\
  session_state w' client = Closed /\
  (forall q, q <> pc -> pcs_get q (pcs w') = pcs_get q (pcs w)).
Proof.
  intros Hc Hpc Hs w'. subst w'. unfold exec.
  rewrite (handleClientDisconnect_run _ _ _ Hc). simpl.
  unfold close_session. rewrite Hpc.
  split; [now rewrite pcs_get_update_eq, Hs|].
  split.
  - unfold session_state. rewrite Hpc. simpl. now rewrite pcs_get_update_eq, Hs.
  - intros q Hq. now apply pcs_get_update_neq.
Qed.

Lemma disconnect_closes_session_witness :
  session_state (exec (handleClientDisconnect "p1") one_negotiated)
    (mkClient "p1" (mkWebSocket 0 OPEN) (Some 1) [] None)
  = Closed.
Proof.
  exact (proj1 (proj2 (disconnect_closes_session "p1" _ 1 _ one_negotiated
                         eq_refl eq_refl eq_refl))).
Defined.

(** ** Relay *)

Lemma map_set_twice {V} k (v v' : V) m : map_set k v (map_set k v' m) = map_set k v m.
Proof.
  induction m as [|[k0 v0] m IH]; simpl.
  - now rewrite String.eqb_refl.
  - destruct (String.eqb k k0) eqn:E; simpl; rewrite E; [reflexivity | now rewrite IH].
Qed.

(** X12. Relaying stamps the sender and nothing else: a message that was
    relayed for [A] and is relayed again for [B] is the message relayed
    for [B] alone (the last sender wins, no trace of [A] is left), and
    the target named in the payload is never touched. *)
Theorem relay_last_sender_wins A B message payload :
  get_prop message "payload" = inr (JObj payload) ->
  relay_message B (relay_message A message) = relay_message B message /\
  relay_message A (relay_message A message) = relay_message A message /\
  exists payload',
    get_prop (relay_message A message) "payload" = inr (JObj payload') /\
    map_get "toPeerID" payload' = map_get "toPeerID" payload.
Proof.
  intros Hp.
  destruct (get_prop_defined _ _ _ Hp ltac:(discriminate)) as [members [-> Hpm]].
  assert (forall X Y, relay_message Y (relay_message X (JObj members))
                      = relay_message Y (JObj members)) as Hagain.
  { intros X Y. unfold relay_message at 2. rewrite Hp. unfold spread_set, own_props.
    unfold relay_message. rewrite Hp. simpl. rewrite map_get_set_eq.
    unfold spread_set, own_props. now rewrite !map_set_twice. }
  split; [apply Hagain|]. split; [apply Hagain|].
  exists (map_set "fromPeerID" (JStr A) payload).
  unfold relay_message. rewrite Hp. unfold spread_set, own_props. simpl.
  rewrite map_get_set_eq. split; [reflexivity|].
  apply map_get_set_neq. discriminate.
Qed.

Lemma relay_last_sender_wins_witness :
  relay_message "b" (relay_message "a" (direct_offer "c" "mallory")) = direct_offer "c" "b".
Proof.
  rewrite (proj1 (relay_last_sender_wins "a" "b" (direct_offer "c" "mallory") _ eq_refl)).
  reflexivity.
Defined.

(** X13. A direct message whose payload names no usable target (no
    [toPeerID], a falsy one, or one that is not a string) is dropped:
    the world is left as it is. *)
Theorem relay_without_target_dropped fromClientId message payload target w :
  get_prop message "payload" = inr payload ->
  get_prop payload "toPeerID" = inr target ->
  truthy target = false \/ (forall s, target <> JStr s) ->
  relayP2PMessage fromClientId message w = (Normal tt, w).
Proof.
  intros Hp Ht Hbad. unfold relayP2PMessage, bind, lift, ret, get_clients.
  rewrite Hp. simpl. rewrite Ht. simpl.
  destruct (truthy target) eqn:E; simpl; [|reflexivity].
  destruct Hbad as [Hf|Hns]; [discriminate|].
  destruct target; simpl; try reflexivity. now destruct (Hns s).
Qed.

Lemma relay_without_target_dropped_witness :
  exec (relayP2PMessage "a"
          (JObj [("type", JStr "direct-offer"); ("payload", JObj [("toPeerID", JNum 7)])]))
    three_clients
  = three_clients.
Proof.
  unfold exec.
  rewrite (relay_without_target_dropped "a"
             (JObj [("type", JStr "direct-offer"); ("payload", JObj [("toPeerID", JNum 7)])])
             (JObj [("toPeerID", JNum 7)]) (JNum 7) three_clients eq_refl eq_refl).
  - reflexivity.
  - right. discriminate.
Defined.

(** ** The transcoder and the life of a client *)

(** X14. With two or more clients holding a session, the job that is started
    does not depend on the client it is started for: any two clients
    without a subprocess get the very same result, inputs and all. *)
Theorem composite_same_for_any_caller pj w id1 c1 id2 c2 :
  map_get id1 (clients w) = Some c1 -> ffmpegProcess c1 = None ->
  map_get id2 (clients w) = Some c2 -> ffmpegProcess c2 = None ->
  2 <= List.length (active_entries (clients w)) ->
  startHLSProcessing pj id1 w = startHLSProcessing pj id2 w.
Proof.
  intros H1 P1 H2 P2 Hge.
  rewrite (startHLSProcessing_run pj _ _ _ H1 P1), (startHLSProcessing_run pj _ _ _ H2 P2).
  apply Nat.leb_le in Hge. now rewrite Hge.
Qed.

Lemma composite_same_for_any_caller_witness :
  startHLSProcessing join_slash "a" two_sessions = startHLSProcessing join_slash "b" two_sessions.
Proof.
  exact (composite_same_for_any_caller join_slash two_sessions "a" _ "b" _
           eq_refl eq_refl eq_refl eq_refl (le_n 2)).
Defined.



Lemma reachable_wf_witness :
  reachable join_slash (run join_slash two_publishers initial) /\
  wf (run join_slash two_publishers initial).
Proof.
  assert (reachable join_slash (run join_slash two_publishers initial)) as Hr
      by (exists two_publishers; reflexivity).
  split; [exact Hr | exact (reachable_wf join_slash _ Hr)].
Defined.

(** ** Streams and peer connections over a run *)

Lemma pc_le_refl s : pc_le s s.
Proof. repeat split; auto. exists []. now rewrite app_nil_r. Qed.

Lemma pc_le_trans s1 s2 s3 : pc_le s1 s2 -> pc_le s2 s3 -> pc_le s1 s3.
Proof.
  intros (R1 & L1 & [m1 C1] & K1) (R2 & L2 & [m2 C2] & K2).
  repeat split; auto.
  exists (m1 ++ m2). now rewrite C2, C1, app_assoc.
Qed.

Lemma stored_stream_set_same k c c' m s :
  map_get k m = Some c -> mediaStreams c' = mediaStreams c ->
  stored_stream (map_set k c' m) s -> stored_stream m s.
Proof.
  intros Hget Hsame (kc & kind & Hin & Hs).
  apply map_set_In in Hin as [->|Hin].
  - exists (k, c), kind. split; [now apply map_get_In | simpl in *; congruence].
  - now exists kc, kind.
Qed.

Lemma stored_stream_set_stream k c kind n m s :
  map_get k m = Some c ->
  stored_stream (map_set k (with_mediaStream kind n c) m) s -> stored_stream m s \/ s = n.
Proof.
  intros Hget (kc & kind' & Hin & Hs).
  apply map_set_In in Hin as [->|Hin].
  - simpl in Hs. apply map_set_In in Hs as [E|Hs].
    + right. congruence.
    + left. exists (k, c), kind'. split; [now apply map_get_In | assumption].
  - left. now exists kc, kind'.
Qed.

Lemma stored_stream_set_streams k c c' kind n m s :
  map_get k m = Some c ->
  mediaStreams c' = map_set kind n (mediaStreams c) ->
  stored_stream (map_set k c' m) s -> stored_stream m s \/ s = n.
Proof.
  intros Hget Hms (kc & kind' & Hin & Hs).
  apply map_set_In in Hin as [->|Hin].
  - simpl in Hs. rewrite Hms in Hs. apply map_set_In in Hs as [E|Hs].
    + right. congruence.
    + left. exists (k, c), kind'. split; [now apply map_get_In | assumption].
  - left. now exists kc, kind'.
Qed.

Lemma stored_stream_delete k m s : stored_stream (map_delete k m) s -> stored_stream m s.
Proof.
  intros (kc & kind & Hin & Hs). apply map_delete_In in Hin. exists kc, kind. tauto.
Qed.

Lemma progress_refl w : progress w w.
Proof.
  constructor; [lia | auto | |].
  - exists []. split; [now rewrite app_nil_r | intros s []].
  - intros q s _ Hs. exists s. split; [assumption | apply pc_le_refl].
Qed.

Lemma progress_append w w1 es :
  progress w w1 -> ended es = [] -> progress w (append_trace es w1).
Proof.
  intros [Hn Hs [added [Ht He]] Hp] Hes. constructor; simpl; auto.
  exists (added ++ es). rewrite Ht, app_assoc. split; [reflexivity|].
  intros s. rewrite ended_app, Hes, app_nil_r. apply He.
Qed.

Lemma progress_trace_only w es : ended es = [] -> progress w (append_trace es w).
Proof. intros. apply progress_append; [apply progress_refl | assumption]. Qed.

(** A callback that assigns a field other than [mediaStreams] on one
    client and may allocate: the shape shared by several handlers. *)
Lemma progress_assign w k c c' l n' t es :
  map_get k (clients w) = Some c ->
  mediaStreams c' = mediaStreams c ->
  next w <= n' ->
  ended es = [] ->
  (forall q s, q < next w -> pcs_get q (pcs w) = Some s ->
     exists s', pcs_get q l = Some s' /\ pc_le s s') ->
  t = trace w ++ es ->
  progress w (mkWorld (map_set k c' (clients w)) l n' t).
Proof.
  intros Hget Hsame Hn Hes Hp ->. constructor; simpl; auto.
  - intros s Hs. left. eapply stored_stream_set_same; eauto.
  - exists es. split; [reflexivity|]. rewrite Hes. intros s [].
Qed.

Lemma pcs_keep w q s :
  pcs_get q (pcs w) = Some s -> exists s', pcs_get q (pcs w) = Some s' /\ pc_le s s'.
Proof. intros Hs. exists s. split; [assumption | apply pc_le_refl]. Qed.

Lemma progress_initiate fromClientId w : progress w (snd (handleInitiateP2P fromClientId w)).
Proof.
  rewrite handleInitiateP2P_run. simpl.
  apply progress_trace_only, ended_notifications.
Qed.

Lemma progress_relay fromClientId message w :
  progress w (snd (relayP2PMessage fromClientId message w)).
Proof.
  unfold relayP2PMessage. munfold.
  destruct (get_prop message "payload") as [e|payload]; simpl; [apply progress_refl|].
  destruct (get_prop payload "toPeerID") as [e|target]; simpl; [apply progress_refl|].
  destruct (truthy target); simpl; [|apply progress_refl].
  destruct (clients_get target (clients w)) as [b|]; [|apply progress_refl].
  destruct (is_open (readyState (ws b))); [|apply progress_refl].
  now apply (progress_trace_only w [_]).
Qed.

Lemma pcs_update_progress pc f l q s :
  (forall x, pc_le x (f x)) ->
  pcs_get q l = Some s ->
  exists s', pcs_get q (pcs_update pc f l) = Some s' /\ pc_le s s'.
Proof.
  intros Hf Hs. destruct (Nat.eq_dec q pc) as [->|Hne].
  - rewrite pcs_get_update_eq, Hs. simpl. eauto.
  - rewrite pcs_get_update_neq by assumption. exists s. split; [assumption | apply pc_le_refl].
Qed.

Lemma progress_candidate ice clientId message w :
  progress w (snd (handleServerCandidate ice clientId message w)).
Proof.
  unfold handleServerCandidate, addIceCandidate. munfold.
  destruct (map_get clientId (clients w)) as [c|]; [|apply progress_refl].
  destruct (peerConnection c) as [pc|]; [|apply progress_refl].
  destruct (get_prop message "payload") as [e|payload]; simpl; [apply progress_refl|].
  destruct (get_prop payload "candidate") as [e|candidate]; simpl; [apply progress_refl|].
  destruct (truthy candidate); simpl; [|apply progress_refl].
  destruct (get_prop candidate "candidate") as [e|inner]; simpl;
    [now apply (progress_trace_only w [_])|].
  destruct ice as [e|]; simpl; [now apply (progress_trace_only w [_])|].
  constructor; simpl; [lia | auto | |].
  - exists []. split; [now rewrite app_nil_r | intros s []].
  - intros q s _ Hs. apply pcs_update_progress; [|assumption].
    intros x. repeat split; simpl; auto. now exists [inner].
Qed.

Lemma progress_offer o clientId message w :
  progress w (snd (handleServerOffer o clientId message w)).
Proof.
  destruct (map_get clientId (clients w)) as [c|] eqn:Hc.
  2:{ unfold handleServerOffer. munfold. rewrite Hc. apply progress_refl. }
  destruct (get_prop message "payload") as [e|payload] eqn:Hp.
  { unfold handleServerOffer. munfold. rewrite Hc, Hp. apply progress_refl. }
  destruct (get_prop payload "sdp") as [e|sdp] eqn:Hs.
  { unfold handleServerOffer. munfold. rewrite Hc, Hp. simpl. rewrite Hs. apply progress_refl. }
  destruct (truthy sdp) eqn:Ht.
  2:{ unfold handleServerOffer. munfold. rewrite Hc, Hp. simpl. rewrite Hs. simpl.
      rewrite Ht. apply progress_refl. }
  destruct (handleServerOffer_run o clientId c message sdp w Hc) as [inner [_ ->]].
  { exists payload. auto. }
  cbv zeta. simpl.
  assert (forall (l : list (nat * PeerConnection)),
            (forall q, q <> next w ->
               pcs_get q l = pcs_get q (pcs w ++ [(next w, mkPC None None [] false)])) ->
            forall q s, q < next w -> pcs_get q (pcs w) = Some s ->
            exists s', pcs_get q l = Some s' /\ pc_le s s') as Hold.
  { intros l Hl q s Hq Hs0. exists s. split; [|apply pc_le_refl].
    rewrite Hl by lia. now rewrite pcs_get_app, Hs0. }
  destruct (remote_result o) as [e|];
    [|destruct (answer_result o) as [e|]; [|destruct (local_result o) as [e|local]]];
    (eapply progress_assign with (c := c);
     [exact Hc | reflexivity | lia | | | reflexivity];
     [ reflexivity
     | apply Hold; intros q Hq; now rewrite ?pcs_get_update_neq by assumption ]).
Qed.

Lemma progress_dispatch ext clientId message w :
  progress w (snd (handleSignalingMessage ext clientId message w)).
Proof.
  unfold handleSignalingMessage, bind at 1, get_clients.
  destruct (map_get clientId (clients w)) as [c|]; [|apply progress_refl].
  unfold bind, lift.
  destruct (get_prop message "type") as [e|ty]; simpl; [apply progress_refl|].
  destruct ty; try apply progress_refl.
  destruct (String.eqb s "signal-initiate-p2p"); [apply progress_initiate|].
  destruct (String.eqb s "server-offer"); [apply progress_offer|].
  destruct (String.eqb s "server-candidate"); [apply progress_candidate|].
  destruct (String.eqb s "direct-offer" || String.eqb s "direct-answer"
            || String.eqb s "direct-candidate"); [apply progress_relay | apply progress_refl].
Qed.

Lemma progress_onMessage ext clientId data w :
  progress w (snd (onMessage ext clientId data w)).
Proof.
  unfold onMessage, try_catch, bind.
  destruct data as [v|]; simpl.
  - pose proof (progress_dispatch ext clientId v w) as H.
    destruct (handleSignalingMessage ext clientId v w) as [[[]|e] w1]; simpl in *; auto.
    now apply (progress_append w w1 [_]).
  - now apply (progress_trace_only w [_]).
Qed.

Lemma progress_disconnect clientId w :
  progress w (snd (handleClientDisconnect clientId w)).
Proof.
  destruct (map_get clientId (clients w)) as [c|] eqn:Hc.
  - rewrite (handleClientDisconnect_run _ _ _ Hc). simpl.
    constructor; simpl; [lia | | |].
    + intros s Hs. left. now apply stored_stream_delete in Hs.
    + eexists. split; [reflexivity|].
      intros s. rewrite ended_disconnect_events. unfold map_values.
      rewrite in_map_iff. intros [[kind s'] [<- Hin]].
      exists (clientId, c), kind. split; [now apply map_get_In | assumption].
    + intros q s _ Hs. unfold close_session.
      destruct (peerConnection c) as [pc|]; [|now apply pcs_keep].
      apply pcs_update_progress; [|assumption].
      intros x. repeat split; simpl; auto. exists []. now rewrite app_nil_r.
  - rewrite (handleClientDisconnect_unregistered _ _ Hc). apply progress_refl.
Qed.

Lemma progress_socket_error clientId e w :
  progress w (snd ((emit (EvError ("WebSocket error for client " ++ clientId ++ ":") e) ;;
                    handleClientDisconnect clientId) w)).
Proof.
  unfold bind at 1. rewrite emit_run.
  pose proof (progress_disconnect clientId
                (append_trace [EvError ("WebSocket error for client " ++ clientId ++ ":") e] w))
    as [Hn Hs [added [Ht He]] Hp].
  constructor; auto.
  simpl in Ht. rewrite <- app_assoc in Ht.
  eexists. split; [exact Ht|]. simpl. exact He.
Qed.

Lemma stored_stream_new_client k socket m s :
  stored_stream (map_set k (new_client k socket) m) s -> stored_stream m s.
Proof.
  intros (kc & kind & Hin & Hs).
  apply map_set_In in Hin as [->|Hin]; [destruct Hs | now exists kc, kind].
Qed.

Lemma progress_connection state clientId w :
  progress w (snd ((h <- fresh ;; onConnection (mkWebSocket h state) clientId) w)).
Proof.
  unfold onConnection, absent_id. munfold.
  assert (forall m es,
            (forall s, stored_stream m s -> stored_stream (clients w) s) ->
            ended es = [] ->
            progress w (mkWorld m (pcs w) (S (next w)) (trace w ++ es))) as Hshape.
  { intros m es Hm Hes. constructor; simpl; [lia | auto | |].
    - exists es. split; [reflexivity|]. rewrite Hes. intros s [].
    - intros q s _. apply pcs_keep. }
  destruct clientId as [cid|]; simpl; [|now apply Hshape].
  destruct (String.eqb cid ""); simpl; [now apply Hshape|].
  apply Hshape; [|reflexivity]. intros s. apply stored_stream_new_client.
Qed.

Lemma progress_socket_state clientId state w :
  progress w (snd (modify_client clientId
                     (fun c => with_ws (mkWebSocket (handle (ws c)) state) c) w)).
Proof.
  munfold. destruct (map_get clientId (clients w)) as [c|] eqn:Hc; simpl;
    [|apply progress_refl].
  apply progress_assign with (c := c) (es := []); auto.
  - intros q s _. apply pcs_keep.
  - now rewrite app_nil_r.
Qed.

Lemma progress_start pj clientId w :
  progress w (snd (startHLSProcessing pj clientId w)).
Proof.
  destruct (map_get clientId (clients w)) as [c|] eqn:Hc.
  2:{ rewrite startHLSProcessing_unregistered by assumption. apply progress_refl. }
  destruct (ffmpegProcess c) as [p|] eqn:Hp.
  { erewrite startHLSProcessing_owned by eassumption. apply progress_refl. }
  rewrite (startHLSProcessing_run pj _ _ _ Hc Hp).
  destruct (Nat.leb 2 (List.length (active_entries (clients w)))).
  - rewrite createCompositeHLSStream_run. simpl.
    destruct (active_entries (clients w)) as [|[id1 c1] [|[id2 c2] rest]];
      try apply progress_refl.
    constructor; simpl; [lia | auto | |].
    + eexists. split; [reflexivity | intros s []].
    + intros q s _. apply pcs_keep.
  - rewrite (createSingleClientHLSStream_run _ _ _ _ _ _ Hc). simpl.
    eapply progress_assign with (c := c);
      [exact Hc | reflexivity | lia | | | reflexivity];
      [reflexivity | intros q s _; apply pcs_keep].
Qed.

Lemma progress_track pj clientId kind dirExists w :
  progress w (snd (handleIncomingTrack pj clientId kind dirExists w)).
Proof.
  unfold handleIncomingTrack, setupVideoProcessing, setupAudioProcessing, createWriteStream.
  munfold.
  destruct (map_get clientId (clients w)) as [c|] eqn:Hc; [|apply progress_refl].
  destruct dirExists; simpl;
    (destruct (String.eqb kind "video");
     [|destruct (String.eqb kind "audio")]); simpl; rewrite ?Hc; simpl; rewrite ?Hc; simpl;
    try apply progress_refl;
    try (now apply (progress_trace_only w [_]));
    (constructor; simpl;
     [ lia
     | intros s Hs; apply (stored_stream_set_stream _ _ _ _ _ _ Hc) in Hs as [Hs| ->];
       [now left | right; split; [reflexivity | lia]]
     | rewrite <- ?app_assoc; eexists; split; [reflexivity | intros s []]
     | intros q s _; apply pcs_keep ]).
Qed.

Lemma progress_prefix w w' es :
  ended es = [] -> progress (append_trace es w) w' -> progress w w'.
Proof.
  intros Hes [Hn Hs [added [Ht He]] Hp]. constructor; auto.
  simpl in Ht. rewrite <- app_assoc in Ht.
  exists (es ++ added). split; [exact Ht|].
  intros s. rewrite ended_app, Hes. apply He.
Qed.

Lemma progress_ice socket candidate w : progress w (snd (onIceCandidate socket candidate w)).
Proof.
  unfold onIceCandidate.
  destruct (truthy candidate && is_open (readyState socket));
    [now apply (progress_trace_only w [_]) | apply progress_refl].
Qed.

Lemma progress_step pj i w : progress w (step pj i w).
Proof.
  unfold step, exec. destruct i; simpl.
  - apply progress_connection.
  - apply progress_onMessage.
  - apply progress_disconnect.
  - apply progress_socket_error.
  - unfold bind at 1. rewrite emit_run.
    apply (progress_prefix w _ [EvLog (track_text kind clientId)]); [reflexivity|].
    apply progress_track.
  - apply progress_start.
  - apply progress_socket_state.
  - apply progress_ice.
Qed.

Lemma streams_fresh_progress w w' : streams_fresh w -> progress w w' -> streams_fresh w'.
Proof.
  intros Hf [Hn Hs _ _] s Hstored.
  destruct (Hs s Hstored) as [Hold|[-> Hlt]]; [|assumption].
  specialize (Hf s Hold). lia.
Qed.

Lemma streams_fresh_run pj inputs : forall w, streams_fresh w -> streams_fresh (run pj inputs w).
Proof.
  induction inputs as [|i inputs IH]; intros w Hf; simpl; [assumption|].
  apply IH. exact (streams_fresh_progress _ _ Hf (progress_step pj i w)).
Qed.

Lemma streams_fresh_reachable pj w : reachable pj w -> streams_fresh w.
Proof.
  intros [inputs ->]. apply streams_fresh_run.
  intros s (kc & kind & [] & _).
Qed.

Lemma unstored_stream_run pj inputs :
  forall w s,
    s < next w -> ~ stored_stream (clients w) s ->
    ~ In s (ended (added_since w (run pj inputs w))).
Proof.
  assert (forall w s, s < next w -> ~ stored_stream (clients w) s ->
            exists added, trace (run pj inputs w) = trace w ++ added /\ ~ In s (ended added))
    as Hrun.
  { induction inputs as [|i inputs IH]; intros w s Hlt Hun; simpl.
    - exists []. split; [now rewrite app_nil_r | tauto].
    - destruct (progress_step pj i w) as [Hn Hs [added1 [Ht1 He1]] _].
      destruct (IH (step pj i w) s) as (added2 & Ht2 & He2); [lia | |].
      + intros Hstored. destruct (Hs s Hstored) as [Hold|[-> _]]; [tauto | lia].
      + exists (added1 ++ added2). rewrite Ht2, Ht1, app_assoc. split; [reflexivity|].
        rewrite ended_app, in_app_iff. intros [Hin|Hin]; [|tauto]. apply Hun. now apply He1. }
  intros w s Hlt Hun. destruct (Hrun w s Hlt Hun) as (added & Ht & He).
  now rewrite (added_since_app _ _ _ Ht).
Qed.

Lemma track_video_run pj clientId client dirExists w :
  map_get clientId (clients w) = Some client ->
  handleIncomingTrack pj clientId "video" dirExists w =
  (Normal tt,
   mkWorld (map_set clientId (with_mediaStream "video" (next w) client) (clients w))
     (pcs w) (S (S (next w)))
     (trace w ++
      (if dirExists then [] else [EvMkdir (pj [outputDir; clientId])]) ++
      [EvCreateWriteStream (next w) (pj [outputDir; clientId; "video.h264"]);
       EvCreateWriteStream (S (next w)) (pj [outputDir; clientId; "video.ivf"]);
       EvSetTimeout clientId 2000])).
Proof.
  intros Hc.
  unfold handleIncomingTrack, setupVideoProcessing, createWriteStream. munfold.
  rewrite Hc. destruct dirExists; simpl; rewrite Hc; simpl; rewrite Hc; simpl;
    rewrite <- ?app_assoc; reflexivity.
Qed.

Lemma step_track_video pj clientId client dirExists w :
  map_get clientId (clients w) = Some client ->
  step pj (Track clientId "video" dirExists) w =
  mkWorld (map_set clientId (with_mediaStream "video" (next w) client) (clients w))
    (pcs w) (S (S (next w)))
    (trace w ++
     [EvLog (track_text "video" clientId)] ++
     (if dirExists then [] else [EvMkdir (pj [outputDir; clientId])]) ++
     [EvCreateWriteStream (next w) (pj [outputDir; clientId; "video.h264"]);
      EvCreateWriteStream (S (next w)) (pj [outputDir; clientId; "video.ivf"]);
      EvSetTimeout clientId 2000]).
Proof.
  intros Hc. unfold step, exec. simpl. unfold bind at 1. rewrite emit_run.
  rewrite (track_video_run pj _ client); [|exact Hc]. simpl.
  now rewrite <- app_assoc.
Qed.

(** C8 (the code at the failing input).  Client [a] connects, negotiates,
    publishes a video and an audio track and disconnects.  Three streams
    were opened for it: 2 (H264), 3 (IVF) and 4 (Ogg).  The loop under
    "Close media streams" ends the values of [mediaStreams], which are 2
    and 4: [setupVideoProcessing] opens the IVF stream and writes to it
    but never stores it, so the disconnect leaves it open, and so does
    everything that happens afterwards.  The registry is empty after the
    disconnect and no process was to be signalled. *)
Theorem C8_ivf_sink_left_open pj :
  let w1 := run pj one_publisher initial in
  let w2 := step pj (Close "a") w1 in
  opened (trace w1) = [2; 3; 4] /\
  In (EvCreateWriteStream 3 (pj [outputDir; "a"; "video.ivf"])) (trace w1) /\
  map_get "a" (clients w1)
    = Some (mkClient "a" (mkWebSocket 0 OPEN) (Some 1) [("video", 2); ("audio", 4)] None) /\
  clients w2 = [] /\
  added_since w1 w2 = [EvLog "Client a disconnected"; EvStreamEnd 2; EvStreamEnd 4] /\
  ended (trace w2) = [2; 4] /\
  (forall inputs, ~ In 3 (ended (added_since w2 (run pj inputs w2)))) /\
  ~ sinks_ended_after_disconnect pj.
Proof.
  intros w1 w2.
  assert (In (EvCreateWriteStream 3 (pj [outputDir; "a"; "video.ivf"])) (trace w1)) as Hopen.
  { do 5 right. left. reflexivity. }
  assert (ended (trace w2) = [2; 4]) as Hended by reflexivity.
  split; [reflexivity|]. split; [exact Hopen|]. split; [reflexivity|].
  split; [reflexivity|]. split; [reflexivity|]. split; [exact Hended|]. split.
  - intros inputs. apply unstored_stream_run.
    + change (next w2) with 5. lia.
    + change (clients w2) with (@nil (string * ClientConnection)).
      intros (kc & kind & [] & _).
  - intros Hclaim.
    assert (In 3 (ended (trace w2))) as Hin.
    { apply (Hclaim w1 "a" "video.ivf" 3); [now exists one_publisher | discriminate | exact Hopen]. }
    rewrite Hended in Hin. destruct Hin as [Hin|[Hin|[]]]; discriminate.
Qed.

(** X17. Of the two streams opened for a video track only the H264 one is
    stored on the client.  The IVF stream is therefore never ended, by
    the disconnect of the client or by anything else that happens later;
    and when a second video track arrives, the H264 stream of the first
    is replaced in [mediaStreams] and is never ended either. *)
Theorem orphaned_streams_never_ended pj w clientId client dirExists :
  reachable pj w ->
  map_get clientId (clients w) = Some client ->
  let w1 := step pj (Track clientId "video" dirExists) w in
  let w2 := step pj (Track clientId "video" true) w1 in
  In (EvCreateWriteStream (S (next w)) (pj [outputDir; clientId; "video.ivf"]))
     (added_since w w1) /\
  map_get clientId (clients w1) = Some (with_mediaStream "video" (next w) client) /\
  (forall inputs, ~ In (S (next w)) (ended (added_since w1 (run pj inputs w1)))) /\
  (forall inputs, ~ In (next w) (ended (added_since w2 (run pj inputs w2)))).
Proof.
  intros Hreach Hc w1 w2.
  pose proof (streams_fresh_reachable _ _ Hreach) as Hfresh.
  pose proof (step_track_video pj clientId client dirExists w Hc) as Hw1.
  fold w1 in Hw1.
  assert (map_get clientId (clients w1) = Some (with_mediaStream "video" (next w) client)) as Hc1.
  { rewrite Hw1. simpl. apply map_get_set_eq. }
  split; [|split; [exact Hc1|split]].
  - rewrite Hw1. erewrite added_since_app by reflexivity.
    rewrite !in_app_iff. right. right. right. now left.
  - intros inputs. apply unstored_stream_run.
    + rewrite Hw1. simpl. lia.
    + rewrite Hw1. simpl. intros Hs.
      apply (stored_stream_set_stream _ _ _ _ _ _ Hc) in Hs as [Hs|Hs]; [|lia].
      specialize (Hfresh _ Hs). lia.
  - intros inputs.
    pose proof (step_track_video pj clientId _ true w1 Hc1) as Hw2.
    fold w2 in Hw2.
    apply unstored_stream_run.
    + rewrite Hw2, Hw1. simpl. lia.
    + rewrite Hw2. simpl. rewrite Hw1 at 2. simpl. rewrite map_set_twice. intros Hs.
      apply (stored_stream_set_streams _ client _ "video" (next w1) _ _ Hc) in Hs
        as [Hs|Hs].
      * specialize (Hfresh _ Hs). lia.
      * rewrite Hw1 in Hs. simpl in Hs. lia.
      * simpl. apply map_set_twice.
Qed.

Lemma orphaned_streams_never_ended_witness :
  let w := run join_slash (firstn 4 two_publishers) initial in
  let w1 := step join_slash (Track "a" "video" false) w in
  reachable join_slash w /\
  ended (added_since w1 (run join_slash [Close "a"] w1)) = [4] /\
  ~ In 5 (ended (added_since w1 (run join_slash [Close "a"] w1))).
Proof.
  intros w w1.
  assert (reachable join_slash w) as Hr by (exists (firstn 4 two_publishers); reflexivity).
  split; [exact Hr|]. split; [reflexivity|].
  destruct (orphaned_streams_never_ended join_slash w "a" _ false Hr eq_refl)
    as (_ & _ & Hivf & _).
  exact (Hivf [Close "a"]).
Defined.

(** X18. Whatever callbacks run, a peer connection the server has created is
    never dropped from its books and never goes back: a description that
    was set stays set, candidates are only added, and a closed peer
    connection stays closed. *)
Theorem sessions_only_progress pj inputs :
  forall w q s,
    wf w ->
    pcs_get q (pcs w) = Some s ->
    exists s',
      pcs_get q (pcs (run pj inputs w)) = Some s' /\
      pc_le s s' /\
      (pc_state s = Closed -> pc_state s' = Closed) /\
      (pc_state s = AnswerSent ->
       pc_state s' = AnswerSent \/ pc_state s' = CandidatesExchanging \/ pc_state s' = Closed).
Proof.
  assert (forall w q s, q < next w -> pcs_get q (pcs w) = Some s ->
            exists s', pcs_get q (pcs (run pj inputs w)) = Some s' /\ pc_le s s') as Hrun.
  { induction inputs as [|i inputs IH]; intros w q s Hq Hs; simpl.
    - exists s. split; [assumption | apply pc_le_refl].
    - destruct (progress_step pj i w) as [Hn _ _ Hp].
      destruct (Hp q s Hq Hs) as (s1 & Hs1 & Hle1).
      destruct (IH (step pj i w) q s1) as (s2 & Hs2 & Hle2); [lia | assumption |].
      exists s2. split; [assumption | now apply pc_le_trans with s1]. }
  intros w q s Hwf Hs.
  destruct (Hrun w q s (pcs_get_bound _ _ _ _ (wf_pcs _ Hwf) Hs) Hs) as (s' & Hs' & Hle).
  exists s'. split; [assumption|]. split; [assumption|].
  destruct Hle as (_ & Hl & _ & Hk). unfold pc_state. split.
  - destruct (pc_closed s); [|destruct (localDescription s); [destruct (remoteCandidates s)|]];
      try discriminate.
    intros _. now rewrite Hk.
  - destruct (pc_closed s); [discriminate|].
    destruct (localDescription s) as [l|]; [|discriminate].
    rewrite (Hl l eq_refl). intros _.
    destruct (pc_closed s'); [tauto|]. destruct (remoteCandidates s'); tauto.
Qed.

Lemma sessions_only_progress_witness :
  wf one_negotiated /\
  exists s',
    pcs_get 1 (pcs (run join_slash
                      [Message "p1" (Some (candidate_message "candidate:1")) (all_resolve "x");
                       Close "p1"] one_negotiated)) = Some s' /\
    pc_state s' = Closed.
Proof.
  assert (wf one_negotiated) as Hwf by wf_concrete.
  split; [exact Hwf|].
  destruct (sessions_only_progress join_slash
              [Message "p1" (Some (candidate_message "candidate:1")) (all_resolve "x");
               Close "p1"]
              one_negotiated 1 _ Hwf eq_refl) as (s' & Hs' & _).
  exists s'. split; [exact Hs'|].
  vm_compute in Hs'. injection Hs' as <-. reflexivity.
Defined.

(** ** The RTP callbacks *)

Lemma le_bytes_length n v : List.length (Rtp.le_bytes n v) = n.
Proof. revert v. induction n as [|n IH]; intros v; simpl; [reflexivity | now rewrite IH]. Qed.

Lemma le_value_le_bytes n v :
  (0 <= v < 256 ^ Z.of_nat n)%Z -> Rtp.le_value (Rtp.le_bytes n v) = v.
Proof.
  revert v. induction n as [|n IH]; intros v Hv.
  - simpl in *. lia.
  - cbn [Rtp.le_bytes Rtp.le_value fold_right].
    change (fold_right (fun b acc => (b + 256 * acc)%Z) 0%Z (Rtp.le_bytes n (Z.shiftr v 8)))
      with (Rtp.le_value (Rtp.le_bytes n (Z.shiftr v 8))).
    change 255%Z with (Z.ones 8).
    rewrite Z.land_ones, Z.shiftr_div_pow2 by lia.
    change (2 ^ 8)%Z with 256%Z.
    rewrite Nat2Z.inj_succ, Z.pow_succ_r in Hv by lia.
    rewrite IH.
    + pose proof (Z.div_mod v 256). lia.
    + split; [apply Z.div_pos; lia | apply Z.div_lt_upper_bound; lia].
Qed.

Lemma firstn_exact {A} (l l' : list A) n : List.length l = n -> firstn n (l ++ l') = l.
Proof.
  intros <-. rewrite firstn_app, Nat.sub_diag, firstn_all. simpl. apply app_nil_r.
Qed.

Lemma skipn_exact {A} (l l' : list A) n : List.length l = n -> skipn n (l ++ l') = l'.
Proof.
  intros <-. rewrite skipn_app, Nat.sub_diag, skipn_all. reflexivity.
Qed.

Lemma read_frames_unfold k bytes :
  bytes <> [] ->
  Rtp.read_frames (S k) bytes =
  let len := Z.to_nat (Rtp.le_value (firstn 4 bytes)) in
  let ts := Rtp.le_value (firstn 8 (skipn 4 bytes)) in
  let body := skipn 12 bytes in
  if Nat.ltb (List.length bytes) 12 || Nat.ltb (List.length body) len then None
  else match Rtp.read_frames k (skipn len body) with
       | Some frames => Some ((ts, firstn len body) :: frames)
       | None => None
       end.
Proof. destruct bytes; [congruence | reflexivity]. Qed.

Lemma framed_header p :
  Rtp.framed p = true ->
  Rtp.frameHeader p
  = Some (Rtp.le_bytes 4 (Z.of_nat (List.length (Rtp.payload p)))
          ++ Rtp.le_bytes 8 (Rtp.timestamp p)) /\
  (Z.of_nat (List.length (Rtp.payload p)) < 2 ^ 32)%Z /\
  (0 <= Rtp.timestamp p < 2 ^ 64)%Z.
Proof.
  unfold Rtp.framed, Rtp.frameHeader. intros H.
  apply andb_true_iff in H as [_ H].
  destruct ((Z.of_nat (List.length (Rtp.payload p)) <? 2 ^ 32)%Z) eqn:E1; [|discriminate].
  destruct ((0 <=? Rtp.timestamp p)%Z) eqn:E2; [|discriminate].
  destruct ((Rtp.timestamp p <? 2 ^ 64)%Z) eqn:E3; [|discriminate].
  apply Z.ltb_lt in E1. apply Z.leb_le in E2. apply Z.ltb_lt in E3.
  split; [reflexivity|]. split; [assumption | split; assumption].
Qed.

Lemma read_frames_one k (l4 l8 body rest : list Z) :
  List.length l4 = 4 -> List.length l8 = 8 ->
  Z.to_nat (Rtp.le_value l4) = List.length body ->
  Rtp.read_frames (S k) ((l4 ++ l8) ++ body ++ rest)
  = match Rtp.read_frames k rest with
    | Some frames => Some ((Rtp.le_value l8, body) :: frames)
    | None => None
    end.
Proof.
  intros H4 H8 Hlen.
  rewrite read_frames_unfold.
  2:{ destruct l4; [discriminate | simpl; discriminate]. }
  cbv zeta.
  assert (skipn 12 ((l4 ++ l8) ++ body ++ rest) = body ++ rest) as ->.
  { apply skipn_exact. rewrite length_app, H4, H8. reflexivity. }
  rewrite <- (app_assoc l4 l8).
  rewrite (firstn_exact l4 _ 4 H4), (skipn_exact l4 _ 4 H4), (firstn_exact l8 _ 8 H8).
  rewrite Hlen.
  rewrite (firstn_exact body rest _ eq_refl), (skipn_exact body rest _ eq_refl).
  assert (Nat.ltb (List.length (l4 ++ l8 ++ body ++ rest)) 12 = false) as ->.
  { apply Nat.ltb_ge. rewrite !length_app, H4, H8. lia. }
  assert (Nat.ltb (List.length (body ++ rest)) (List.length body) = false) as ->.
  { apply Nat.ltb_ge. rewrite length_app. lia. }
  reflexivity.
Qed.

Lemma read_frames_frames packets :
  forall fuel,
    List.length packets <= fuel ->
    Forall (fun p => Rtp.framed p = true) packets ->
    Rtp.read_frames fuel (flat_map Rtp.frame packets)
    = Some (map (fun p => (Rtp.timestamp p, Rtp.payload p)) packets).
Proof.
  induction packets as [|p packets IH]; intros fuel Hfuel Hall.
  - destruct fuel; reflexivity.
  - destruct fuel as [|k]; [simpl in Hfuel; lia|].
    inversion Hall as [|? ? Hp Hrest]; subst.
    destruct (framed_header p Hp) as (Hh & Hlen & Hts).
    cbn [flat_map map]. unfold Rtp.frame at 1. rewrite Hh.
    rewrite <- app_assoc.
    rewrite (read_frames_one k _ _ (Rtp.payload p) (flat_map Rtp.frame packets)).
    + rewrite IH; [|simpl in Hfuel; lia | assumption].
      rewrite (le_value_le_bytes 8) by exact Hts. reflexivity.
    + apply le_bytes_length.
    + apply le_bytes_length.
    + rewrite (le_value_le_bytes 4); [apply Nat2Z.id|].
      split; [lia | exact Hlen].
Qed.

Lemma frames_length packets :
  Forall (fun p => Rtp.framed p = true) packets ->
  List.length packets <= List.length (flat_map Rtp.frame packets).
Proof.
  induction 1 as [|p packets Hp _ IH]; simpl; [lia|].
  destruct (framed_header p Hp) as (Hh & _).
  unfold Rtp.frame at 1. rewrite Hh, !length_app, !le_bytes_length. lia.
Qed.

Lemma receive_video_streams packets :
  forall s,
    Rtp.h264 (Rtp.receive_video packets s)
    = Rtp.h264 s ++ flat_map (fun p => Rtp.nalSeparator ++ Rtp.payload p) packets /\
    Rtp.ivf (Rtp.receive_video packets s)
    = Rtp.ivf s ++ flat_map Rtp.frame (filter Rtp.framed packets) /\
    Rtp.rtp_errors (Rtp.receive_video packets s)
    = Rtp.rtp_errors s
      + List.length (filter (fun p => Rtp.is_vp p && negb (Rtp.framed p)) packets).
Proof.
  unfold Rtp.receive_video.
  induction packets as [|p packets IH]; intros s; simpl.
  - rewrite !app_nil_r. auto.
  - destruct (IH (Rtp.onReceiveRtp_video p s)) as (Hh & Hi & He).
    rewrite Hh, Hi, He. clear IH Hh Hi He.
    unfold Rtp.onReceiveRtp_video, Rtp.framed, Rtp.frame.
    destruct (Rtp.is_vp p); [destruct (Rtp.frameHeader p) as [header|] eqn:Eh|]; simpl;
      rewrite ?Eh; rewrite <- ?app_assoc; simpl; repeat split; try reflexivity; lia.
Qed.

(** X19. The frame stream can be read back: whatever packets arrive, reading
    the bytes written to the IVF stream yields, in arrival order, the
    timestamp and the payload of exactly the packets of payload type 96
    or 97 whose header could be written.  Lengths and timestamps survive
    the little-endian header unchanged. *)
Theorem ivf_frames_round_trip packets :
  Rtp.read_ivf (Rtp.ivf (Rtp.receive_video packets (Rtp.mkVideoSink [] [] 0)))
  = Some (map (fun p => (Rtp.timestamp p, Rtp.payload p)) (filter Rtp.framed packets)).
Proof.
  destruct (receive_video_streams packets (Rtp.mkVideoSink [] [] 0)) as (_ & -> & _).
  simpl. unfold Rtp.read_ivf.
  assert (Forall (fun p => Rtp.framed p = true) (filter Rtp.framed packets)) as Hall.
  { apply Forall_forall. intros p Hin. now apply filter_In in Hin. }
  apply read_frames_frames; [now apply frames_length | assumption].
Qed.

(** X20. Every packet reaches the H264 stream, start code first and in
    arrival order, also when its frame header could not be written; each
    such failure is caught and counted once, and it stops nothing.  The
    audio stream is the payloads in arrival order. *)
Theorem every_packet_written packets s audio :
  Rtp.h264 (Rtp.receive_video packets s)
  = Rtp.h264 s ++ flat_map (fun p => [0; 0; 0; 1]%Z ++ Rtp.payload p) packets /\
  Rtp.rtp_errors (Rtp.receive_video packets s)
  = Rtp.rtp_errors s
    + List.length (filter (fun p => Rtp.is_vp p && negb (Rtp.framed p)) packets) /\
  Rtp.receive_audio packets audio = audio ++ flat_map Rtp.payload packets.
Proof.
  destruct (receive_video_streams packets s) as (Hh & _ & He).
  split; [exact Hh|]. split; [exact He|].
  clear. unfold Rtp.receive_audio. revert audio.
  induction packets as [|p packets IH]; intros audio; simpl.
  - now rewrite app_nil_r.
  - rewrite IH. unfold Rtp.onReceiveRtp_audio. now rewrite app_assoc.
Qed.

(** ** The player page *)

Lemma count_call_app f b l l' :
  Watch.count_call f (Watch.mkPage b (l ++ l'))
  = List.length (filter f l) + List.length (filter f l').
Proof. unfold Watch.count_call. simpl. now rewrite filter_app, length_app. Qed.

Lemma errors_handled errors :
  forall p,
    let p' := fold_left (fun p d => Watch.onError d p) errors p in
    Watch.count_call Watch.is_destroy p'
    = Watch.count_call Watch.is_destroy p + List.length (filter Watch.unrecoverable errors) /\
    Watch.count_call Watch.is_startLoad p'
    = Watch.count_call Watch.is_startLoad p
      + List.length (filter (Watch.is_fatal Watch.NETWORK_ERROR) errors) /\
    Watch.count_call Watch.is_recover p'
    = Watch.count_call Watch.is_recover p
      + List.length (filter (Watch.is_fatal Watch.MEDIA_ERROR) errors) /\
    Watch.hlsRef p'
    = Watch.hlsRef p && Nat.eqb (List.length (filter Watch.unrecoverable errors)) 0.
Proof.
  induction errors as [|d errors IH]; intros p; simpl.
  - rewrite !Nat.add_0_r, andb_true_r. auto.
  - destruct (IH (Watch.onError d p)) as (Hd & Hs & Hr & Hh).
    rewrite Hd, Hs, Hr, Hh. clear IH Hd Hs Hr Hh.
    destruct p as [b l]. destruct d as [[|] []];
      unfold Watch.onError, Watch.call, Watch.unrecoverable, Watch.is_fatal; simpl;
      rewrite ?count_call_app; unfold Watch.count_call; simpl;
      rewrite ?andb_false_r; repeat split; try reflexivity; lia.
Qed.

(** X21. A page that mounted the HLS player has, once its cleanup ran,
    destroyed the player exactly once unless several unrecoverable errors
    were delivered (each of those destroys it); the cleanup itself
    destroys it only if no error did.  Every fatal network error led to
    one [startLoad], every fatal media error to one [recoverMediaError],
    and [hlsRef] is empty at the end. *)
Theorem player_destroyed_once native attached url errors :
  let p := Watch.session true native attached url errors in
  Watch.count_call Watch.is_destroy p
  = Nat.max 1 (List.length (filter Watch.unrecoverable errors)) /\
  Watch.count_call Watch.is_startLoad p
  = List.length (filter (Watch.is_fatal Watch.NETWORK_ERROR) errors) /\
  Watch.count_call Watch.is_recover p
  = List.length (filter (Watch.is_fatal Watch.MEDIA_ERROR) errors) /\
  Watch.hlsRef p = false.
Proof.
  intros p. subst p. unfold Watch.session.
  destruct (errors_handled errors (Watch.mount true native url (Watch.mkPage false [])))
    as (Hd & Hs & Hr & Hh).
  cbv zeta in *.
  set (p1 := fold_left (fun p d => Watch.onError d p) errors
               (Watch.mount true native url (Watch.mkPage false []))) in *.
  unfold Watch.mount in Hd, Hs, Hr, Hh. simpl in Hd, Hs, Hr, Hh.
  unfold Watch.count_call in Hd, Hs, Hr. simpl in Hd, Hs, Hr.
  unfold Watch.cleanup, Watch.call. rewrite Hh.
  destruct p1 as [b l]. simpl in *.
  destruct attached;
  destruct (List.length (filter Watch.unrecoverable errors)) as [|k]; simpl;
    rewrite ?count_call_app, ?filter_app, ?length_app; unfold Watch.count_call; simpl;
    rewrite ?filter_app, ?length_app; simpl; repeat split;
    try lia; try exact Hh.
Qed.

Lemma start_twice_single_witness :
  List.length
    (spawned (added_since one_negotiated
                (exec (startHLSProcessing join_slash "p1" ;; startHLSProcessing join_slash "p1")
                   one_negotiated)))
  <= 1.
Proof.
  exact (start_twice_single join_slash one_negotiated "p1" _ eq_refl (le_n 2)).
Defined.

(** ** The sessions held by the registry are in the store *)

Lemma links_same w w' : clients w' = clients w -> links w w'.
Proof. intros Heq pc Hpc. left. now rewrite <- Heq. Qed.

Lemma links_refl w : links w w.
Proof. now apply links_same. Qed.

Lemma links_trace_only w es : links w (append_trace es w).
Proof. now apply links_same. Qed.

Lemma links_append w w1 es : links w w1 -> links w (append_trace es w1).
Proof. intros H. exact H. Qed.

Lemma links_prefix w w' es : links (append_trace es w) w' -> links w w'.
Proof. intros H. exact H. Qed.

Lemma held_session_set k c c' m pc :
  map_get k m = Some c -> peerConnection c' = peerConnection c ->
  held_session (map_set k c' m) pc -> held_session m pc.
Proof.
  intros Hget Hsame (kc & Hin & Hpc).
  apply map_set_In in Hin as [->|Hin]; [|now exists kc].
  exists (k, c). split; [now apply map_get_In | simpl in *; congruence].
Qed.

Lemma held_session_delete k m pc : held_session (map_delete k m) pc -> held_session m pc.
Proof. intros (kc & Hin & Hpc). apply map_delete_In in Hin. exists kc. tauto. Qed.

Lemma links_assign w k c c' l n' t :
  map_get k (clients w) = Some c ->
  peerConnection c' = peerConnection c ->
  links w (mkWorld (map_set k c' (clients w)) l n' t).
Proof. intros Hget Hsame pc Hpc. left. simpl in Hpc. eapply held_session_set; eauto. Qed.

Lemma links_initiate fromClientId w : links w (snd (handleInitiateP2P fromClientId w)).
Proof. rewrite handleInitiateP2P_run. apply links_trace_only. Qed.

Lemma links_relay fromClientId message w :
  links w (snd (relayP2PMessage fromClientId message w)).
Proof.
  unfold relayP2PMessage. munfold.
  destruct (get_prop message "payload") as [e|payload]; simpl; [apply links_refl|].
  destruct (get_prop payload "toPeerID") as [e|target]; simpl; [apply links_refl|].
  destruct (truthy target); simpl; [|apply links_refl].
  destruct (clients_get target (clients w)) as [b|]; [|apply links_refl].
  destruct (is_open (readyState (ws b))); [|apply links_refl].
  now apply links_same.
Qed.

Lemma links_candidate ice clientId message w :
  links w (snd (handleServerCandidate ice clientId message w)).
Proof.
  unfold handleServerCandidate, addIceCandidate. munfold.
  destruct (map_get clientId (clients w)) as [c|]; [|apply links_refl].
  destruct (peerConnection c) as [pc|]; [|apply links_refl].
  destruct (get_prop message "payload") as [e|payload]; simpl; [apply links_refl|].
  destruct (get_prop payload "candidate") as [e|candidate]; simpl; [apply links_refl|].
  destruct (truthy candidate); simpl; [|apply links_refl].
  destruct (get_prop candidate "candidate") as [e|inner]; simpl; [now apply links_same|].
  destruct ice as [e|]; simpl; now apply links_same.
Qed.

Lemma pcs_get_created q x l : pcs_get q (l ++ [(q, x)]) <> None.
Proof.
  rewrite pcs_get_app. destruct (pcs_get q l); [discriminate|].
  simpl. now rewrite Nat.eqb_refl.
Qed.

Lemma pcs_get_updated q f l : pcs_get q l <> None -> pcs_get q (pcs_update q f l) <> None.
Proof. rewrite pcs_get_update_eq. now destruct (pcs_get q l). Qed.

Lemma links_offer o clientId message w :
  links w (snd (handleServerOffer o clientId message w)).
Proof.
  destruct (map_get clientId (clients w)) as [c|] eqn:Hc.
  2:{ unfold handleServerOffer. munfold. rewrite Hc. apply links_refl. }
  destruct (get_prop message "payload") as [e|payload] eqn:Hp.
  { unfold handleServerOffer. munfold. rewrite Hc, Hp. apply links_refl. }
  destruct (get_prop payload "sdp") as [e|sdp] eqn:Hs.
  { unfold handleServerOffer. munfold. rewrite Hc, Hp. simpl. rewrite Hs. apply links_refl. }
  destruct (truthy sdp) eqn:Ht.
  2:{ unfold handleServerOffer. munfold. rewrite Hc, Hp. simpl. rewrite Hs. simpl.
      rewrite Ht. apply links_refl. }
  destruct (handleServerOffer_run o clientId c message sdp w Hc) as [inner [_ ->]].
  { exists payload. auto. }
  cbv zeta. simpl.
  assert (forall l n' t,
            next w < n' -> pcs_get (next w) l <> None ->
            links w (mkWorld (map_set clientId (with_peerConnection (next w) c) (clients w))
                       l n' t)) as Hshape.
  { intros l n' t Hn Hl pc (kc & Hin & Hpc). simpl in Hin.
    apply map_set_In in Hin as [->|Hin]; [|left; now exists kc].
    right. simpl in Hpc. injection Hpc as <-. now repeat split. }
  destruct (remote_result o) as [e|];
    [|destruct (answer_result o) as [e|]; [|destruct (local_result o) as [e|local]]];
    (apply Hshape; [lia|]);
    repeat apply pcs_get_updated; apply pcs_get_created.
Qed.

Lemma links_dispatch ext clientId message w :
  links w (snd (handleSignalingMessage ext clientId message w)).
Proof.
  unfold handleSignalingMessage, bind at 1, get_clients.
  destruct (map_get clientId (clients w)) as [c|]; [|apply links_refl].
  unfold bind, lift.
  destruct (get_prop message "type") as [e|ty]; simpl; [apply links_refl|].
  destruct ty; try apply links_refl.
  destruct (String.eqb s "signal-initiate-p2p"); [apply links_initiate|].
  destruct (String.eqb s "server-offer"); [apply links_offer|].
  destruct (String.eqb s "server-candidate"); [apply links_candidate|].
  destruct (String.eqb s "direct-offer" || String.eqb s "direct-answer"
            || String.eqb s "direct-candidate"); [apply links_relay | apply links_refl].
Qed.

Lemma links_onMessage ext clientId data w :
  links w (snd (onMessage ext clientId data w)).
Proof.
  unfold onMessage, try_catch, bind.
  destruct data as [v|]; simpl.
  - pose proof (links_dispatch ext clientId v w) as H.
    destruct (handleSignalingMessage ext clientId v w) as [[[]|e] w1]; simpl in *; auto.
  - now apply links_same.
Qed.

Lemma links_disconnect clientId w :
  links w (snd (handleClientDisconnect clientId w)).
Proof.
  destruct (map_get clientId (clients w)) as [c|] eqn:Hc.
  - rewrite (handleClientDisconnect_run _ _ _ Hc). simpl.
    intros pc Hpc. left. simpl in Hpc. now apply held_session_delete in Hpc.
  - rewrite (handleClientDisconnect_unregistered _ _ Hc). apply links_refl.
Qed.

Lemma links_socket_error clientId e w :
  links w (snd ((emit (EvError ("WebSocket error for client " ++ clientId ++ ":") e) ;;
                 handleClientDisconnect clientId) w)).
Proof.
  unfold bind at 1. rewrite emit_run.
  exact (links_disconnect clientId
           (append_trace [EvError ("WebSocket error for client " ++ clientId ++ ":") e] w)).
Qed.

Lemma links_connection state clientId w :
  links w (snd ((h <- fresh ;; onConnection (mkWebSocket h state) clientId) w)).
Proof.
  unfold onConnection, absent_id. munfold.
  destruct clientId as [cid|]; simpl; [|now apply links_same].
  destruct (String.eqb cid ""); simpl; [now apply links_same|].
  intros pc (kc & Hin & Hpc). simpl in Hin.
  apply map_set_In in Hin as [->|Hin]; [discriminate | left; now exists kc].
Qed.

Lemma links_socket_state clientId state w :
  links w (snd (modify_client clientId
                  (fun c => with_ws (mkWebSocket (handle (ws c)) state) c) w)).
Proof.
  munfold. destruct (map_get clientId (clients w)) as [c|] eqn:Hc; simpl;
    [|apply links_refl].
  now apply links_assign with (c := c).
Qed.

Lemma links_start pj clientId w :
  links w (snd (startHLSProcessing pj clientId w)).
Proof.
  destruct (map_get clientId (clients w)) as [c|] eqn:Hc.
  2:{ rewrite startHLSProcessing_unregistered by assumption. apply links_refl. }
  destruct (ffmpegProcess c) as [p|] eqn:Hp.
  { erewrite startHLSProcessing_owned by eassumption. apply links_refl. }
  rewrite (startHLSProcessing_run pj _ _ _ Hc Hp).
  destruct (Nat.leb 2 (List.length (active_entries (clients w)))).
  - rewrite createCompositeHLSStream_run. simpl.
    destruct (active_entries (clients w)) as [|[id1 c1] [|[id2 c2] rest]];
      try apply links_refl; now apply links_same.
  - rewrite (createSingleClientHLSStream_run _ _ _ _ _ _ Hc). simpl.
    now apply links_assign with (c := c).
Qed.

Lemma links_track pj clientId kind dirExists w :
  links w (snd (handleIncomingTrack pj clientId kind dirExists w)).
Proof.
  unfold handleIncomingTrack, setupVideoProcessing, setupAudioProcessing, createWriteStream.
  munfold.
  destruct (map_get clientId (clients w)) as [c|] eqn:Hc; [|apply links_refl].
  destruct dirExists; simpl;
    (destruct (String.eqb kind "video");
     [|destruct (String.eqb kind "audio")]); simpl; rewrite ?Hc; simpl; rewrite ?Hc; simpl;
    try apply links_refl;
    try (now apply links_same);
    now apply links_assign with (c := c).
Qed.

Lemma links_ice socket candidate w : links w (snd (onIceCandidate socket candidate w)).
Proof.
  unfold onIceCandidate.
  destruct (truthy candidate && is_open (readyState socket));
    [now apply links_same | apply links_refl].
Qed.

Lemma links_step pj i w : links w (step pj i w).
Proof.
  unfold step, exec. destruct i; simpl.
  - apply links_connection.
  - apply links_onMessage.
  - apply links_disconnect.
  - apply links_socket_error.
  - unfold bind at 1. rewrite emit_run.
    apply (links_prefix w _ [EvLog (track_text kind clientId)]).
    apply links_track.
  - apply links_start.
  - apply links_socket_state.
  - apply links_ice.
Qed.

Lemma held_sessions_run pj inputs :
  forall w,
    (forall pc, held_session (clients w) pc ->
       pc < next w /\ exists s, pcs_get pc (pcs w) = Some s) ->
    forall pc, held_session (clients (run pj inputs w)) pc ->
      pc < next (run pj inputs w) /\ exists s, pcs_get pc (pcs (run pj inputs w)) = Some s.
Proof.
  induction inputs as [|i inputs IH]; intros w Hw; simpl; [exact Hw|].
  apply IH. intros pc Hpc.
  destruct (progress_step pj i w) as [Hn _ _ Hp].
  destruct (links_step pj i w pc Hpc) as [Hold|(-> & Hlt & Hnew)].
  - destruct (Hw pc Hold) as [Hlt [s Hs]]. split; [lia|].
    destruct (Hp pc s Hlt Hs) as (s' & Hs' & _). now exists s'.
  - split; [assumption|].
    destruct (pcs_get (next w) (pcs (step pj i w))) as [s|]; [now exists s | congruence].
Qed.

(** X22. In every world the server can reach, the peer connection that a
    client of the registry holds is an object already allocated and is
    in the store of peer connections: the session of a registered client
    is never dangling. *)
Theorem held_sessions_stored pj w k c pc :
  reachable pj w ->
  In (k, c) (clients w) ->
  peerConnection c = Some pc ->
  pc < next w /\ exists s, pcs_get pc (pcs w) = Some s.
Proof.
  intros [inputs ->] Hin Hpc.
  apply (held_sessions_run pj inputs initial).
  - intros q (kc & [] & _).
  - now exists (k, c).
Qed.

Lemma held_sessions_stored_witness :
  reachable join_slash (run join_slash one_publisher initial) /\
  (1 < next (run join_slash one_publisher initial) /\
   exists s, pcs_get 1 (pcs (run join_slash one_publisher initial)) = Some s).
Proof.
  assert (reachable join_slash (run join_slash one_publisher initial)) as Hr
      by (exists one_publisher; reflexivity).
  assert (In ("a", mkClient "a" (mkWebSocket 0 OPEN) (Some 1) [("video", 2); ("audio", 4)] None)
             (clients (run join_slash one_publisher initial))) as Hin
      by (vm_compute; left; reflexivity).
  split; [exact Hr|].
  exact (held_sessions_stored join_slash _ "a" _ 1 Hr Hin eq_refl).
Defined.
